(** * Dependency-graph analyzer: a shallow embedding of [package_analyzer.py]

    The development follows the final snapshot of the tool
    ([fifth step/package_analyzer.py]): the recursive graph builder
    [build_dependency_graph_bfs], the load-order resolver
    [calculate_load_order] (Kahn's algorithm), the two renderers
    [generate_graphviz_dot] and [print_ascii_tree] and, around them, the
    validation of the command line ([validate_arguments]), the reading of a
    registry document ([extract_dependencies]) and of a fixture of any
    content ([get_fixture_dependencies]), and the run itself
    ([print_configuration], [demonstrate_visualization_cases], [run]). It
    has six parts: the program, the vocabulary of its properties, sample
    repositories, the facts about each component, the properties of the
    specification, and further properties of the program.

    Python values are modelled as follows.
    - [str] is [string]; [int] is [Z].
    - A [dict] keeps its keys in insertion order, so it is an association
      list with the operations of [PyDict]; [defaultdict(int)], whose order
      is never observed, is a [gmap string Z] read with default [0].
    - A [set] of strings is a [gset string]; the order in which Python
      iterates over it is fixed by the hash table and is unknown to the
      program, so it is an arbitrary enumeration [set_iter] (a [SetOrder]).
    - [print] appends one line to the [stdout] field of the analyzer.
    - An exception raised by the dependency source is the [Err] case of
      [result].
    - A value parsed from JSON is a [json], and an operation on it returns
      or raises ([outcome]).
    - The files of the machine are a [file_system] that the run reads and
      writes through [read_json], [path_exists] and [write_file]; the
      comparison with [npm ls], which runs in a subprocess, is a parameter
      of the run. *)

From stdpp Require Import gmap strings list pretty.

Local Open Scope string_scope.
Local Open Scope list_scope.
Local Open Scope Z_scope.

(** * The program *)

(** ** Insertion-ordered dictionaries *)

Module PyDict.
Section dict.
Context {V : Type}.

(** [d.get(k)] *)
Fixpoint get (d : list (string * V)) (k : string) : option V :=
  match d with
  | [] => None
  | (k', v) :: d' => if decide (k = k') then Some v else get d' k
  end.

(** [d.get(k, dflt)] *)
Definition get_default (d : list (string * V)) (k : string) (dflt : V) : V :=
  default dflt (get d k).

(** [d[k] = v]: an existing key keeps its position, a new key goes last. *)
Fixpoint set (d : list (string * V)) (k : string) (v : V) : list (string * V) :=
  match d with
  | [] => [(k, v)]
  | (k', v') :: d' =>
      if decide (k = k') then (k, v) :: d' else (k', v') :: set d' k v
  end.

Definition keys (d : list (string * V)) : list string := d.*1.

(** A Python dict holds each key once. *)
Definition wf (d : list (string * V)) : Prop := NoDup (keys d).
End dict.
End PyDict.

(** ** Data model *)

(** An entry of an edge list: (dependency, version constraint). *)
Definition dep_edge : Type := string * string.

(** [self.dependency_graph]: package -> list of (dependency, version). *)
Definition graph : Type := list (string * list dep_edge).

(** What a call that may raise gives back. *)
Inductive result (A : Type) : Type :=
| Ok (a : A)
| Err (msg : string).
Arguments Ok {A} a.
Arguments Err {A} msg.

(** The command-line arguments the core reads ([self.args]). *)
Record Args : Type := mkArgs {
  url : string;
  test_repo : option string;
  max_depth : Z
}.

(** The fields of [PackageAnalyzer] the core uses, and the lines printed. *)
Record analyzer : Type := mkAnalyzer {
  dependency_graph : graph;
  cycle_detected : bool;
  load_order : list string;
  all_packages : gset string;
  stdout : list string
}.

(** [PackageAnalyzer.__init__] *)
Definition init : analyzer :=
  {| dependency_graph := [];
     cycle_detected := false;
     load_order := [];
     all_packages := ∅;
     stdout := [] |}.

(** Iteration order of a Python set: some enumeration of its elements. *)
Record SetOrder : Type := mkSetOrder {
  set_iter : gset string → list string;
  set_iter_perm : ∀ s, set_iter s ≡ₚ elements s
}.

Definition elements_order : SetOrder :=
  {| set_iter := elements; set_iter_perm := λ s, reflexivity (elements s) |}.

(** State updates of the builder. *)

(** [self.dependency_graph[pkg].append(e)] on a [defaultdict(list)] *)
Definition graph_append (g : graph) (pkg : string) (e : dep_edge) : graph :=
  PyDict.set g pkg (PyDict.get_default g pkg [] ++ [e]).

Definition record_edge (pkg : string) (e : dep_edge) (st : analyzer) : analyzer :=
  {| dependency_graph := graph_append (dependency_graph st) pkg e;
     cycle_detected := cycle_detected st;
     load_order := load_order st;
     all_packages := all_packages st;
     stdout := stdout st |}.

(** [self.all_packages.add(pkg)] *)
Definition add_package (pkg : string) (st : analyzer) : analyzer :=
  {| dependency_graph := dependency_graph st;
     cycle_detected := cycle_detected st;
     load_order := load_order st;
     all_packages := {[ pkg ]} ∪ all_packages st;
     stdout := stdout st |}.

(** [print(line)] *)
Definition print (line : string) (st : analyzer) : analyzer :=
  {| dependency_graph := dependency_graph st;
     cycle_detected := cycle_detected st;
     load_order := load_order st;
     all_packages := all_packages st;
     stdout := stdout st ++ [line] |}.

(** [self.cycle_detected = True] *)
Definition set_cycle_detected (st : analyzer) : analyzer :=
  {| dependency_graph := dependency_graph st;
     cycle_detected := true;
     load_order := load_order st;
     all_packages := all_packages st;
     stdout := stdout st |}.

(** [self.load_order = order] *)
Definition set_load_order (order : list string) (st : analyzer) : analyzer :=
  {| dependency_graph := dependency_graph st;
     cycle_detected := cycle_detected st;
     load_order := order;
     all_packages := all_packages st;
     stdout := stdout st |}.

(** [sep.join(parts)] *)
Fixpoint join (sep : string) (parts : list string) : string :=
  match parts with
  | [] => ""
  | [p] => p
  | p :: ps => p +:+ sep +:+ join sep ps
  end.

Definition dq : string := String (Ascii.ascii_of_nat 34) "".
Definition nl : string := String (Ascii.ascii_of_nat 10) "".

(** ["=" * n] *)
Definition rule (n : nat) : string := join "" (replicate n "=").

(** The two diagnostics of the builder. *)
Definition cycle_message (path : list string) (pkg : string) : string :=
  "⚠️  Обнаружена циклическая зависимость: " +:+ join " -> " (path ++ [pkg]).

Definition error_message (pkg msg : string) : string :=
  "⚠️  Ошибка при обработке пакета " +:+ pkg +:+ ": " +:+ msg.

(** ** The analyzer *)

Section Analyzer.

(** The registry behind [fetch_package_info] and [extract_dependencies]:
    for a registry URL and a package name, the dependencies of the latest
    version, or the exception raised on the way. *)
Variable registry : string → string → result (list dep_edge).

(** The file system behind [load_test_repository]: for a path, the parsed
    fixture (package -> list of dependency names), or the exception. The
    fixture has the shape the tool expects, an object of lists of names;
    the lookup in a document of any other shape is
    [get_fixture_dependencies]. *)
Variable files : string → result (list (string * list string)).

(** The order in which [self.all_packages] is iterated. *)
Variable ord : SetOrder.

Variable args : Args.

(** *** Graph builder *)

(** [{dep: "*" for dep in dependencies}]: a repeated name keeps its first
    position. *)
Definition wildcard_dict (dependencies : list string) : list dep_edge :=
  fold_left (λ d dep, PyDict.set d dep "*") dependencies [].

(** [get_direct_dependencies]. [if self.args.test_repo] holds for a path
    that is given and not empty. *)
Definition get_direct_dependencies (package_name : string)
  : result (list dep_edge) :=
  match test_repo args with
  | Some (String _ _ as file_path) =>
      match files file_path with
      | Err e => Err ("Ошибка загрузки тестового репозитория: " +:+ e)
      | Ok test_data =>
          let dependencies := PyDict.get_default test_data package_name [] in
          Ok (match dependencies with
              | [] => []
              | _ => wildcard_dict dependencies
              end)
      end
  | _ => registry (url args) package_name
  end.

(** [build_dependency_graph_bfs]. The recursion of the source descends with
    [current_depth + 1] until [max_depth]; [fuel] bounds the number of
    nested calls, and [build_dependency_graph_bfs] below supplies enough
    of it (see [build_fuel_enough]). *)
Fixpoint build_fuel (fuel : nat) (start_package : string) (current_depth : Z)
    (path : list string) (st : analyzer) : analyzer :=
  if decide (current_depth >= max_depth args) then st
  else if decide (start_package ∈ path) then
    set_cycle_detected (print (cycle_message path start_package) st)
  else
    let current_path := path ++ [start_package] in
    let st := add_package start_package st in
    match get_direct_dependencies start_package with
    | Err e => print (error_message start_package e) st
    | Ok dependencies =>
        match fuel with
        | O => st
        | S fuel' =>
            fold_left
              (λ st '(dep_package, version),
                 build_fuel fuel' dep_package (current_depth + 1) current_path
                   (add_package dep_package
                      (record_edge start_package (dep_package, version) st)))
              dependencies st
        end
    end.

Definition build_dependency_graph_bfs (start_package : string)
    (current_depth : Z) (path : list string) (st : analyzer) : analyzer :=
  build_fuel (Z.to_nat (max_depth args - current_depth))
    start_package current_depth path st.

(** *** Load order *)

(** Reading a [defaultdict(int)]. *)
Definition dd_get (m : gmap string Z) (k : string) : Z := default 0 (m !! k).

(** [for node, deps in graph.items(): for dep, _ in deps: in_degree[dep] += 1] *)
Definition count_in_degree (g : graph) : gmap string Z :=
  fold_left
    (λ m '(_, deps),
       fold_left (λ m '(dep, _), <[dep := dd_get m dep + 1]> m) deps m)
    g ∅.

(** [for node in all_nodes: if node not in in_degree: in_degree[node] = 0] *)
Definition fill_in_degree (all_nodes : list string) (m : gmap string Z)
  : gmap string Z :=
  fold_left
    (λ m node, if decide (m !! node = None) then <[node := 0]> m else m)
    all_nodes m.

(** The body of [for neighbor, _ in self.dependency_graph.get(current, [])]. *)
Fixpoint visit_neighbors (neighbors : list dep_edge)
    (in_degree : gmap string Z) (queue : list string)
  : gmap string Z * list string :=
  match neighbors with
  | [] => (in_degree, queue)
  | (neighbor, _) :: rest =>
      let in_degree := <[neighbor := dd_get in_degree neighbor - 1]> in_degree in
      let queue :=
        if decide (dd_get in_degree neighbor = 0) then queue ++ [neighbor]
        else queue in
      visit_neighbors rest in_degree queue
  end.

(** [while queue: ...], at most [fuel] iterations. *)
Fixpoint drain (fuel : nat) (g : graph) (in_degree : gmap string Z)
    (queue : list string) (order : list string)
  : gmap string Z * list string * list string :=
  match fuel with
  | O => (in_degree, queue, order)
  | S fuel' =>
      match queue with
      | [] => (in_degree, [], order)
      | current :: queue =>
          let order := order ++ [current] in
          let '(in_degree, queue) :=
            visit_neighbors (PyDict.get_default g current []) in_degree queue in
          drain fuel' g in_degree queue order
      end
  end.

(** The number of entries of all edge lists. *)
Definition edge_count (g : graph) : nat := length (g ≫= snd).

(** The local variables [in_degree], [queue] and [load_order] of
    [calculate_load_order] when its loop ends. Every pass of the loop
    consumes one queue entry and every entry but the initial ones comes
    from an edge, hence the bound on the number of passes
    (see [kahn_spec]). *)
Definition kahn (st : analyzer) : gmap string Z * list string * list string :=
  let all_nodes := set_iter ord (all_packages st) in
  let in_degree := count_in_degree (dependency_graph st) in
  let in_degree := fill_in_degree all_nodes in_degree in
  let queue := filter (λ node, dd_get in_degree node = 0) all_nodes in
  drain (length queue + edge_count (dependency_graph st))%nat
    (dependency_graph st) in_degree queue [].

(** [calculate_load_order]: the new state and the returned list. *)
Definition calculate_load_order (st : analyzer) (start_package : string)
  : analyzer * list string :=
  let load_order := (kahn st).2 in
  (set_load_order load_order st, load_order).

(** *** Graphviz *)

Definition start_declaration (start_package : string) : string :=
  "    " +:+ dq +:+ start_package +:+ dq
  +:+ " [fillcolor=orange, style=" +:+ dq +:+ "filled,bold" +:+ dq +:+ "];".

Definition node_declaration (package : string) : string :=
  "    " +:+ dq +:+ package +:+ dq +:+ ";".

Definition edge_declaration (source : string) (e : dep_edge) : string :=
  "    " +:+ dq +:+ source +:+ dq +:+ " -> " +:+ dq +:+ e.1 +:+ dq
  +:+ " [label=" +:+ dq +:+ e.2 +:+ dq +:+ "];".

(** The comment lines that open the description. *)
Definition dot_header (st : analyzer) (start_package : string) : list string :=
  [ "digraph DependencyGraph {";
    "    rankdir=TB;";
    "    node [shape=box, style=filled, fillcolor=lightblue];";
    "    edge [color=darkgreen];";
    "";
    "    // Граф зависимостей для пакета " +:+ dq +:+ start_package +:+ dq;
    "    // Глубина анализа: " +:+ pretty (max_depth args);
    "    // Всего пакетов: " +:+ pretty (size (all_packages st));
    "" ].

(** The packages declared after the start package:
    [for package in self.all_packages: if package != start_package]. *)
Definition other_packages (st : analyzer) (start_package : string)
  : list string :=
  filter (λ package, package ≠ start_package) (set_iter ord (all_packages st)).

(** One line per entry of every edge list, in the order of [items()]. *)
Definition dot_edges (st : analyzer) : list string :=
  dependency_graph st ≫=
    λ '(source, dependencies), map (edge_declaration source) dependencies.

Definition dot_cycle_note (st : analyzer) : list string :=
  if cycle_detected st then
    [ ""; "    // Циклические зависимости"; "    edge [color=red, style=bold];" ]
  else [].

(** The list [dot_lines] of [generate_graphviz_dot] before it is joined. *)
Definition dot_lines (st : analyzer) (start_package : string) : list string :=
  dot_header st start_package
  ++ [ start_declaration start_package ]
  ++ map node_declaration (other_packages st start_package)
  ++ [ "" ]
  ++ [ "    // Зависимости между пакетами" ]
  ++ dot_edges st
  ++ dot_cycle_note st
  ++ [ "}" ].

(** [generate_graphviz_dot] *)
Definition generate_graphviz_dot (st : analyzer) (start_package : string)
  : string :=
  join nl (dot_lines st start_package).

(** *** ASCII tree *)

(** The loop [for i, (dep, version) in enumerate(dependencies)] of
    [print_ascii_tree] from index [i] on; [render] is the recursive call
    and [count] is [len(dependencies)]. *)
Fixpoint print_children
    (render : string → bool → analyzer → option analyzer)
    (count : nat) (i : nat) (rest : list dep_edge) (st : analyzer)
  : option analyzer :=
  match rest with
  | [] => Some st
  | (dep, version) :: rest =>
      let is_last_child := bool_decide (Z.of_nat i = Z.of_nat count - 1) in
      let version_info :=
        if decide (version ≠ "*") then " (" +:+ version +:+ ")" else "" in
      match render dep is_last_child st with
      | None => None
      | Some st => print_children render count (S i) rest st
      end
  end.

(** [print_ascii_tree]. The recursion follows the stored graph and need not
    end when the graph has a cycle; [None] is a run that exceeds [fuel]
    nested calls. *)
Fixpoint print_ascii_tree (fuel : nat) (start_package : string)
    (current_node : option string) (prefix : string) (is_last : bool)
    (st : analyzer) : option analyzer :=
  match fuel with
  | O => None
  | S fuel' =>
      let '(current_node, st) :=
        match current_node with
        | None =>
            (start_package,
             print (rule 50)
               (print (nl +:+ "🌳 ASCII-ДЕРЕВО ЗАВИСИМОСТЕЙ ДЛЯ: "
                       +:+ start_package) st))
        | Some node => (node, st)
        end in
      let connector := if is_last then "└── " else "├── " in
      let st := print (prefix +:+ connector +:+ current_node) st in
      let dependencies :=
        PyDict.get_default (dependency_graph st) current_node [] in
      match dependencies with
      | [] => Some st
      | _ =>
          let new_prefix := prefix +:+ (if is_last then "    " else "│   ") in
          print_children
            (λ dep is_last_child st,
               print_ascii_tree fuel' start_package (Some dep) new_prefix
                 is_last_child st)
            (length dependencies) O dependencies st
      end
  end.

End Analyzer.

(** ** The command line *)

(** The namespace [parse_arguments] returns. *)
Module Cli.
Record t : Type := mk {
  package : option string;
  url : string;
  test_repo : option string;
  ascii_tree : bool;
  max_depth : Z;
  load_order : bool;
  graphviz : bool;
  output : option string
}.
End Cli.

(** Truth value of an optional string: [None] and the empty string are
    false. *)
Definition truthy (o : option string) : bool :=
  match o with
  | Some (String _ _) => true
  | _ => false
  end.

(** [validate_arguments]: the returned list of errors and the lines
    printed. [path_exists] is [os.path.exists]. *)
Definition validate_arguments (path_exists : string → bool) (args : Cli.t)
  : list string * list string :=
  let errors := [] in
  let printed := [] in
  let errors :=
    if negb (truthy (Cli.package args)) && negb (truthy (Cli.test_repo args))
    then errors ++ ["Необходимо указать либо --package, либо --test-repo"]
    else errors in
  let errors :=
    if truthy (Cli.package args) && truthy (Cli.test_repo args)
    then errors ++ ["Указаны оба параметра --package и --test-repo. Используйте только один"]
    else errors in
  let '(errors, printed) :=
    if decide (Cli.max_depth args < 1) then
      (errors ++ ["Максимальная глубина должна быть положительным числом"],
       printed)
    else if decide (Cli.max_depth args > 10) then
      (errors,
       printed ++ ["Предупреждение: большая глубина анализа может привести к длительному выполнению"])
    else (errors, printed) in
  let errors :=
    if truthy (Some (Cli.url args))
       && negb (String.prefix "http://" (Cli.url args)
                || String.prefix "https://" (Cli.url args))
    then errors ++ ["URL должен начинаться с http:// или https://"]
    else errors in
  let errors :=
    if truthy (Cli.test_repo args)
       && negb (path_exists (default "" (Cli.test_repo args)))
    then errors ++ ["Файл тестового репозитория не найден: "
                    +:+ default "" (Cli.test_repo args)]
    else errors in
  (errors, printed).

(** The arguments the core reads once [run] has stored the namespace. *)
Definition core_args (args : Cli.t) : Args :=
  {| url := Cli.url args;
     test_repo := Cli.test_repo args;
     max_depth := Cli.max_depth args |}.

(** ** Registry documents *)

(** A value produced by [json.loads]. A number keeps its kind: [int] or
    [float]. *)
#[warnings="-register-all"] Inductive json : Type :=
| JNull
| JBool (b : bool)
| JInt (n : Z)
| JFloat (literal : string)
| JString (s : string)
| JArray (items : list json)
| JObject (members : list (string * json)).

(** The exceptions the operations of [extract_dependencies] raise, each
    with the value it was raised for. *)
Inductive py_exception : Type :=
| NotIterable (v : json)                  (* TypeError of [key in v] *)
| NotIndexable (v : json)                 (* TypeError of [v[key]] *)
| Unhashable (key : json)                 (* TypeError of a list or dict as key *)
| NoAttribute (v : json) (attr : string)  (* AttributeError of [v.attr] *)
| KeyError (key : string).

(** A computation that returns or raises. *)
Inductive outcome (A : Type) : Type :=
| Return (a : A)
| Raise (e : py_exception).
Arguments Return {A} a.
Arguments Raise {A} e.

#[global] Instance outcome_bind : MBind outcome := λ A B f m,
  match m with
  | Return a => f a
  | Raise e => Raise e
  end.

(** [needle in s] for two strings. *)
Fixpoint substring_of (needle s : string) : bool :=
  String.prefix needle s
  || match s with
     | "" => false
     | String _ s' => substring_of needle s'
     end.

(** [key in v] *)
Definition py_in (key : string) (v : json) : outcome bool :=
  match v with
  | JObject members => Return (bool_decide (key ∈ PyDict.keys members))
  | JArray items =>
      Return (existsb (λ x, match x with
                            | JString s => bool_decide (s = key)
                            | _ => false
                            end) items)
  | JString s => Return (substring_of key s)
  | _ => Raise (NotIterable v)
  end.

(** [v[key]] for a string [key] *)
Definition py_getitem (v : json) (key : string) : outcome json :=
  match v with
  | JObject members =>
      match PyDict.get members key with
      | Some x => Return x
      | None => Raise (KeyError key)
      end
  | _ => Raise (NotIndexable v)
  end.

(** [v.get(key, {})]: the keys of a parsed object are strings, so a key of
    another hashable type is never found. *)
Definition py_get (v : json) (key : json) : outcome json :=
  match v with
  | JObject members =>
      match key with
      | JString k => Return (PyDict.get_default members k (JObject []))
      | JArray _ | JObject _ => Raise (Unhashable key)
      | _ => Return (JObject [])
      end
  | _ => Raise (NoAttribute v "get")
  end.

(** [list(v.keys())] *)
Definition py_keys (v : json) : outcome (list string) :=
  match v with
  | JObject members => Return (PyDict.keys members)
  | _ => Raise (NoAttribute v "keys")
  end.

Section Extract.

(** [str(e)], the text of an exception. *)
Variable exc_text : py_exception → string.

(** The [try] block of [extract_dependencies]. The version is [None] where
    the source returns [{}] for want of any version. *)
Definition extract_dependencies_body (package_data : json) : outcome json :=
  has_tags ← py_in "dist-tags" package_data;
  tagged ← (if has_tags : bool then
              tags ← py_getitem package_data "dist-tags";
              py_in "latest" tags
            else Return false);
  latest_version ←
    (if tagged : bool then
       tags ← py_getitem package_data "dist-tags";
       latest ← py_getitem tags "latest";
       Return (Some latest)
     else
       listed ← py_get package_data (JString "versions");
       versions ← py_keys listed;
       Return (JString <$> last versions));
  match latest_version with
  | None => Return (JObject [])
  | Some latest_version =>
      listed ← py_getitem package_data "versions";
      version_data ← py_get listed latest_version;
      py_get version_data (JString "dependencies")
  end.

(** [extract_dependencies] *)
Definition extract_dependencies (package_data : json) : result json :=
  match extract_dependencies_body package_data with
  | Return dependencies => Ok dependencies
  | Raise e => Err ("Ошибка извлечения зависимостей: " +:+ exc_text e)
  end.

End Extract.

(** ** The fixture document *)

(** The exceptions of the fixture lookup that are raised outside
    [load_test_repository], each with the value it was raised for. *)
Inductive lookup_exception : Type :=
| NoGet (test_data : json)           (* AttributeError of [test_data.get] *)
| NotIterated (dependencies : json)  (* TypeError of [for dep in dependencies] *)
| NotHashed (dep : json).            (* TypeError of [dep] as a key *)

Section FixtureDocument.

(** [str(e)] for these exceptions. *)
Variable lookup_text : lookup_exception → string.

(** What the interpreter decides about parsed values: whether a float is
    zero, the characters of a string, and whether two hashable values that
    are not both strings are the same key of a dict. *)
Variable float_is_zero : string → bool.
Variable characters : string → list string.
Variable same_key : json → json → bool.

(** [open] and [json.load]: the parsed document, or the text of the
    exception. *)
Variable load_json : string → result json.

(** Truth value of a parsed value. *)
Definition py_bool (v : json) : bool :=
  match v with
  | JNull => false
  | JBool b => b
  | JInt n => negb (bool_decide (n = 0))
  | JFloat literal => negb (float_is_zero literal)
  | JString s => negb (bool_decide (s = ""))
  | JArray items => match items with [] => false | _ :: _ => true end
  | JObject members => match members with [] => false | _ :: _ => true end
  end.

(** [for dep in v]: the values iterated over. A dict gives its keys and a
    string its characters. *)
Definition py_iter (v : json) : lookup_exception + list json :=
  match v with
  | JArray items => inr items
  | JObject members => inr (JString <$> PyDict.keys members)
  | JString s => inr (JString <$> characters s)
  | _ => inl (NotIterated v)
  end.

(** Lists and dicts cannot be keys. *)
Definition hashable (v : json) : bool :=
  match v with
  | JArray _ | JObject _ => false
  | _ => true
  end.

(** Whether [a] and [b] are the same key: a string equals only itself. *)
Definition same_dict_key (a b : json) : bool :=
  match a, b with
  | JString s, JString t => bool_decide (s = t)
  | JString _, _ | _, JString _ => false
  | _, _ => same_key a b
  end.

(** [d[dep] = "*"]: a key that is there keeps its place. *)
Fixpoint dict_put (d : list (json * string)) (dep : json)
  : list (json * string) :=
  match d with
  | [] => [(dep, "*")]
  | (k, v) :: d' =>
      if same_dict_key k dep then (k, "*") :: d' else (k, v) :: dict_put d' dep
  end.

(** [{dep: "*" for dep in deps}], continued from the dict [d]. *)
Fixpoint wildcard_comprehension (d : list (json * string)) (deps : list json)
  : lookup_exception + list (json * string) :=
  match deps with
  | [] => inr d
  | dep :: deps =>
      if hashable dep then wildcard_comprehension (dict_put d dep) deps
      else inl (NotHashed dep)
  end.

(** [test_data.get(package_name, [])] and the conditional comprehension
    of [get_direct_dependencies], on a parsed fixture of any shape. *)
Definition fixture_dependencies (test_data : json) (package_name : string)
  : lookup_exception + list (json * string) :=
  match test_data with
  | JObject members =>
      let dependencies :=
        PyDict.get_default members package_name (JArray []) in
      if py_bool dependencies then
        match py_iter dependencies with
        | inl e => inl e
        | inr deps => wildcard_comprehension [] deps
        end
      else inr []
  | _ => inl (NoGet test_data)
  end.

(** The fixture branch of [get_direct_dependencies] for a file of any
    content: [load_test_repository] wraps what [open] and [json.load]
    raise, the lookup that follows does not. *)
Definition get_fixture_dependencies (file_path package_name : string)
  : result (list (json * string)) :=
  match load_json file_path with
  | Err e => Err ("Ошибка загрузки тестового репозитория: " +:+ e)
  | Ok test_data =>
      match fixture_dependencies test_data package_name with
      | inl e => Err (lookup_text e)
      | inr dependencies => Ok dependencies
      end
  end.

End FixtureDocument.

(** ** The run *)

(** [o or dflt] for an optional string. *)
Definition py_or (o : option string) (dflt : string) : string :=
  match o with
  | Some (String _ _ as s) => s
  | _ => dflt
  end.

Definition on_off (flag : bool) : string :=
  if flag then "Включен" else "Выключен".

(** [print_configuration] *)
Definition print_configuration (args : Cli.t) (st : analyzer) : analyzer :=
  let st := print "=== КОНФИГУРАЦИЯ АНАЛИЗАТОРА ЗАВИСИМОСТЕЙ ===" st in
  let config :=
    [ ("Анализируемый пакет", py_or (Cli.package args) "Не указан");
      ("URL репозитория", Cli.url args);
      ("Тестовый репозиторий", py_or (Cli.test_repo args) "Не используется");
      ("Режим ASCII-дерева", on_off (Cli.ascii_tree args));
      ("Graphviz вывод", on_off (Cli.graphviz args));
      ("Порядок загрузки", on_off (Cli.load_order args));
      ("Максимальная глубина", pretty (Cli.max_depth args)) ] in
  let st :=
    fold_left (λ st '(key, value), print (key +:+ ": " +:+ value) st) config st in
  print (rule 50) st.

(** The reset at the head of each demonstration:
    [dependency_graph.clear()], [cycle_detected = False],
    [load_order = []], [all_packages.clear()]. *)
Definition clear (st : analyzer) : analyzer :=
  {| dependency_graph := [];
     cycle_detected := false;
     load_order := [];
     all_packages := ∅;
     stdout := stdout st |}.

(** ["-" * n] *)
Definition dashes (n : nat) : string := join "" (replicate n "-").

Section Run.

Variable registry : string → string → result (list dep_edge).

(** The files of the machine, and what [open] and [json.load] make of a
    path, what [os.path.exists] answers, and what
    [with open(path, 'w') as f: f.write(content)] does: the text of the
    exception it raises, if any, and the files it leaves. *)
Variable file_system : Type.
Variable read_json : file_system → string → result (list (string * list string)).
Variable path_exists : file_system → string → bool.
Variable write_file : string → string → file_system → option string * file_system.

Variable ord : SetOrder.

(** The analyzer object and the files. *)
Record world : Type := mkWorld {
  self : analyzer;
  disk : file_system
}.

(** How a procedure ends: it returns, an exception with text [msg] leaves
    it, or [sys.exit(code)] does. *)
Inductive ended : Type :=
| Returned (w : world)
| Raised (msg : string) (w : world)
| Exited (code : Z) (w : world).

(** [compare_with_npm_tree], which runs [npm ls] in a subprocess. *)
Variable compare_with_npm_tree : string → world → option ended.

Definition update (f : analyzer → analyzer) (w : world) : world :=
  {| self := f (self w); disk := disk w |}.

(** Sequencing: the rest runs when the first part returns. [None] is a part
    that does not return (see [print_ascii_tree]). *)
Definition and_then (first : option ended) (rest : world → option ended)
  : option ended :=
  match first with
  | Some (Returned w) => rest w
  | other => other
  end.

(** [self.print_ascii_tree(package)] as a procedure. As in
    [print_ascii_tree], [None] is a rendering that does not end within
    [fuel] nested calls; the limit the interpreter sets to nested calls,
    beyond which it raises [RecursionError], is not part of the model. *)
Definition show_tree (fuel : nat) (package : string) (w : world)
  : option ended :=
  match print_ascii_tree fuel package None "" true (self w) with
  | Some st => Some (Returned {| self := st; disk := disk w |})
  | None => None
  end.

(** [with open(path, 'w') as f: f.write(content)] followed by the line
    that reports it. *)
Definition save (path content : string) (w : world) : option ended :=
  match write_file path content (disk w) with
  | (Some msg, files) => Some (Raised msg {| self := self w; disk := files |})
  | (None, files) =>
      Some (Returned
              {| self := print ("💾 Graphviz описание сохранено в: " +:+ path)
                           (self w);
                 disk := files |})
  end.

(** The body of the loop of [demonstrate_visualization_cases]. *)
Definition demonstrate_case (fuel : nat) (args : Cli.t) (i : Z)
    (package : string) (w : world) : option ended :=
  let w :=
    update (print (nl +:+ "📦 ПРИМЕР " +:+ pretty i
                   +:+ ": Визуализация для пакета '" +:+ package +:+ "'")) w in
  let w := update (print (dashes 50)) w in
  let w := update clear w in
  let w :=
    update (build_dependency_graph_bfs registry (read_json (disk w))
              (core_args args) package 0 []) w in
  and_then (if Cli.ascii_tree args then show_tree fuel package w
            else Some (Returned w))
    (λ w,
       if Cli.graphviz args then
         let dot_content :=
           generate_graphviz_dot ord (core_args args) (self w) package in
         let w :=
           update (print (nl +:+ "📊 Graphviz DOT для пакета '" +:+ package
                          +:+ "':")) w in
         let w := update (print (rule 40)) w in
         let w := update (print dot_content) w in
         let w := update (print (rule 40)) w in
         if truthy (Cli.output args) then
           let filename :=
             default "" (Cli.output args) +:+ "_" +:+ package +:+ ".dot" in
           save filename dot_content w
         else Some (Returned w)
       else Some (Returned w)).

(** [for i, package in enumerate(demonstration_packages, 1)] *)
Fixpoint demonstrate_cases (fuel : nat) (args : Cli.t)
    (cases : list (Z * string)) (w : world) : option ended :=
  match cases with
  | [] => Some (Returned w)
  | (i, package) :: cases =>
      and_then (demonstrate_case fuel args i package w)
               (demonstrate_cases fuel args cases)
  end.

(** [demonstrate_visualization_cases] *)
Definition demonstrate_visualization_cases (fuel : nat) (args : Cli.t)
    (w : world) : option ended :=
  let w := update (print (nl +:+ rule 60)) w in
  let w := update (print "ДЕМОНСТРАЦИЯ ВИЗУАЛИЗАЦИИ ДЛЯ РАЗЛИЧНЫХ ПАКЕТОВ") w in
  let w := update (print (rule 60)) w in
  demonstrate_cases fuel args [(1, "A"); (2, "C"); (3, "E")] w.

(** The [try] block of [run] after [parse_arguments]. The method
    [print_load_order] it calls is not defined by the class, so the call
    raises [AttributeError]. *)
Definition run_body (fuel : nat) (args : Cli.t) (w : world) : option ended :=
  let '(errors, printed) := validate_arguments (path_exists (disk w)) args in
  let w := update (λ st, fold_left (λ st line, print line st) printed st) w in
  match errors with
  | _ :: _ =>
      let w := update (print "Ошибки конфигурации:") w in
      let w :=
        update (λ st, fold_left (λ st error, print ("  - " +:+ error) st)
                        errors st) w in
      Some (Exited 1 w)
  | [] =>
      let w := update (print_configuration args) w in
      let start_package := py_or (Cli.package args) "A" in
      let w :=
        update (build_dependency_graph_bfs registry (read_json (disk w))
                  (core_args args) start_package 0 []) w in
      and_then
        (if Cli.load_order args then
           let w :=
             update (λ st, (calculate_load_order ord st start_package).1) w in
           Some (Raised
                   "'PackageAnalyzer' object has no attribute 'print_load_order'"
                   w)
         else Some (Returned w))
        (λ w,
           let w := update (print (nl +:+ rule 60)) w in
           let w := update (print "ЭТАП 5: ВИЗУАЛИЗАЦИЯ ГРАФА ЗАВИСИМОСТЕЙ") w in
           let w := update (print (rule 60)) w in
           and_then (if Cli.ascii_tree args then show_tree fuel start_package w
                     else Some (Returned w))
             (λ w,
                and_then
                  (if Cli.graphviz args then
                     let dot_content :=
                       generate_graphviz_dot ord (core_args args) (self w)
                         start_package in
                     let w := update (print (nl +:+ "📊 Graphviz DOT описание:")) w in
                     let w := update (print (rule 50)) w in
                     let w := update (print dot_content) w in
                     let w := update (print (rule 50)) w in
                     and_then
                       (if truthy (Cli.output args) then
                          save (default "" (Cli.output args)) dot_content w
                        else Some (Returned w))
                       (λ w,
                          let w :=
                            update (print (nl +:+ "💡 Для визуализации выполните:")) w in
                          let w :=
                            update (print ("   dot -Tpng "
                                           +:+ py_or (Cli.output args) "output.dot"
                                           +:+ " -o graph.png")) w in
                          let w :=
                            update (print "   Или используйте онлайн инструмент: http://www.webgraphviz.com/") w in
                          Some (Returned w))
                   else Some (Returned w))
                  (λ w,
                     and_then
                       (if negb (truthy (Cli.test_repo args))
                           && truthy (Cli.package args)
                        then compare_with_npm_tree start_package w
                        else Some (Returned w))
                       (λ w,
                          and_then
                            (if truthy (Cli.test_repo args) then
                               demonstrate_visualization_cases fuel args w
                             else Some (Returned w))
                            (λ w,
                               Some (Returned
                                       (update (print (nl +:+ "✅ Все этапы выполнены успешно! Инструмент готов.")) w)))))))
  end.

(** [run] on the parsed arguments, from a new [PackageAnalyzer]:
    [except Exception as e] prints the text and leaves with status 1. *)
Definition run (fuel : nat) (args : Cli.t) (files : file_system)
  : option ended :=
  match run_body fuel args {| self := init; disk := files |} with
  | Some (Raised msg w) =>
      Some (Exited 1 (update (print ("❌ Ошибка: " +:+ msg)) w))
  | other => other
  end.

End Run.

Arguments mkWorld {file_system} self disk.
Arguments self {file_system} w.
Arguments disk {file_system} w.
Arguments Returned {file_system} w.
Arguments Raised {file_system} msg w.
Arguments Exited {file_system} code w.
Arguments update {file_system} f w.
Arguments and_then {file_system} first rest.
Arguments run registry {file_system} read_json path_exists write_file ord
  compare_with_npm_tree fuel args files.
Arguments demonstrate_visualization_cases registry {file_system} read_json
  write_file ord fuel args w.
Arguments demonstrate_cases registry {file_system} read_json write_file ord
  fuel args cases w.
Arguments demonstrate_case registry {file_system} read_json write_file ord
  fuel args i package w.

(** * The vocabulary of the properties *)

(** The graph holds the edge [u -> v] with constraint [ver]. *)
Definition has_edge (g : graph) (u v ver : string) : Prop :=
  ∃ deps, (u, deps) ∈ g ∧ (v, ver) ∈ deps.

(** A package that is the source or the target of some edge. *)
Definition endpoint (g : graph) (x : string) : Prop :=
  ∃ u v ver, has_edge g u v ver ∧ (x = u ∨ x = v).

(** The targets of all edges, one entry per edge. *)
Definition targets (g : graph) : list string := g ≫= λ '(_, deps), deps.*1.

(** All edges of the graph, in the order of [items()]. *)
Definition edge_list (g : graph) : list (string * string * string) :=
  g ≫= λ '(u, deps), (λ e : dep_edge, (u, e.1, e.2)) <$> deps.

(** [chain g root d x]: [d] edges of [g] lead from [root] to [x]. *)
Inductive chain (g : graph) (root : string) : nat → string → Prop :=
| chain_root : chain g root O root
| chain_step d u v ver :
    chain g root d u → has_edge g u v ver → chain g root (S d) v.

(** The [for] loop of the builder over the remaining [dependencies]. *)
Definition expand_dependencies
    (registry : string → string → result (list dep_edge))
    (files : string → result (list (string * list string))) (args : Args)
    (fuel : nat) (pkg : string) (depth : Z) (path : list string)
    (dependencies : list dep_edge) (st : analyzer) : analyzer :=
  fold_left
    (λ st '(dep_package, version),
       build_fuel registry files args fuel dep_package (depth + 1)
         (path ++ [pkg])
         (add_package dep_package
            (record_edge pkg (dep_package, version) st)))
    dependencies st.

(** Every edge target is a known package. *)
Definition targets_known (st : analyzer) : Prop :=
  ∀ v, v ∈ targets (dependency_graph st) → v ∈ all_packages st.

(** Every edge was returned by the source for its origin, and its origin is
    fewer than [max_depth] edges away from [root]. *)
Definition bounded
    (registry : string → string → result (list dep_edge))
    (files : string → result (list (string * list string))) (args : Args)
    (root : string) (st : analyzer) : Prop :=
  ∀ u v ver, has_edge (dependency_graph st) u v ver →
    (∃ deps, get_direct_dependencies registry files args u = Ok deps ∧
             (v, ver) ∈ deps) ∧
    (∃ d, Z.of_nat d < max_depth args ∧ chain (dependency_graph st) root d u).

(** A source that answers with no dependencies where [r] raised. *)
Definition recovered (r : result (list dep_edge)) : result (list dep_edge) :=
  match r with
  | Err _ => Ok []
  | Ok deps => Ok deps
  end.

(** Two analyzers that differ at most in what was printed. *)
Definition same_analysis (st st' : analyzer) : Prop :=
  dependency_graph st = dependency_graph st' ∧
  cycle_detected st = cycle_detected st' ∧
  load_order st = load_order st' ∧
  all_packages st = all_packages st'.

(** The known packages are the start package and the endpoints of the
    edges. *)
Definition packages_closed (start : string) (st : analyzer) : Prop :=
  ∀ x, x ∈ all_packages st ↔ x = start ∨ endpoint (dependency_graph st) x.

(** [u] stands before [v] in [l]. *)
Definition before (u v : string) (l : list string) : Prop :=
  ∃ l1 l2 l3, l = l1 ++ u :: l2 ++ v :: l3.

(** The number of entries of [l] equal to [v]. *)
Definition occ (v : string) (l : list string) : Z :=
  Z.of_nat (length (filter (λ x, x = v) l)).

(** The targets of the edges whose source is not in [done], one entry per
    edge: what the in-degree counters still count once the packages of
    [done] have been taken from the queue. *)
Definition pending (done : list string) (g : graph) : list string :=
  g ≫= λ '(u, deps), if decide (u ∈ done) then [] else deps.*1.

(** The loop invariant of Kahn's algorithm. [seq] is the output so far
    followed by the queue, [pend] lists the targets of the edges that the
    counters still count. *)
Record kahn_inv (g : graph) (nodes : list string) (in_degree : gmap string Z)
    (pend seq : list string) : Prop := mkKahnInv {
  inv_count : ∀ v, dd_get in_degree v = occ v pend;
  inv_nodup : NoDup seq;
  inv_zero : ∀ v, v ∈ seq → dd_get in_degree v = 0;
  inv_known : ∀ v, v ∈ seq → v ∈ nodes ∨ v ∈ targets g;
  inv_complete :
    ∀ v, v ∈ nodes ∨ v ∈ targets g → dd_get in_degree v = 0 → v ∈ seq;
  inv_before :
    ∀ l1 v l2, seq = l1 ++ v :: l2 → ∀ u ver, has_edge g u v ver → u ∈ l1
}.

(** The in-degree a package is left with when the queue has drained. *)
Definition residual_in_degree (ord : SetOrder) (st : analyzer) (v : string) : Z :=
  dd_get (kahn ord st).1.1 v.

(** The graph has no cycle: no chain of one edge or more leads from a
    package back to it. *)
Definition acyclic (g : graph) : Prop := ∀ x n, ¬ chain g x (S n) x.

(** Consecutive entries of [l] are joined by edges of [g]. *)
Fixpoint path (g : graph) (l : list string) : Prop :=
  match l with
  | [] => True
  | x :: rest =>
      match rest with
      | [] => True
      | y :: _ => (∃ ver, has_edge g x y ver) ∧ path g rest
      end
  end.

(** The last character but one. *)
Fixpoint penultimate (s : string) : option Ascii.ascii :=
  match s with
  | EmptyString => None
  | String a s' =>
      match s' with
      | String _ EmptyString => Some a
      | _ => penultimate s'
      end
  end.

(** The graph with every version constraint replaced by [ver]. *)
Definition with_versions (ver : string) (g : graph) : graph :=
  fmap (M := list)
    (λ entry : string * list dep_edge,
       (entry.1, fmap (M := list) (λ e : dep_edge, (e.1, ver)) entry.2)) g.

(** Two analyzers with the same output so far whose graphs differ at most in
    the version constraints. *)
Definition same_shape (st st' : analyzer) : Prop :=
  stdout st = stdout st' ∧
  with_versions "*" (dependency_graph st) = with_versions "*" (dependency_graph st').

(** The analyzer [st] with the graph [g]. *)
Definition set_graph (g : graph) (st : analyzer) : analyzer :=
  {| dependency_graph := g;
     cycle_detected := cycle_detected st;
     load_order := load_order st;
     all_packages := all_packages st;
     stdout := stdout st |}.

(** ** Vocabulary of the further properties *)

(** [st'] extends [st]: every edge list is continued, keys keep their
    places, packages and printed lines are kept, a raised cycle flag stays
    raised and the load order is untouched. *)
Definition extends (st st' : analyzer) : Prop :=
  (∀ u deps, PyDict.get (dependency_graph st) u = Some deps →
     ∃ more, PyDict.get (dependency_graph st') u = Some (deps ++ more)) ∧
  PyDict.keys (dependency_graph st) `prefix_of` PyDict.keys (dependency_graph st') ∧
  all_packages st ⊆ all_packages st' ∧
  (cycle_detected st = true → cycle_detected st' = true) ∧
  load_order st' = load_order st ∧
  stdout st `prefix_of` stdout st'.

(** No key of the graph has an empty edge list. *)
Definition no_empty_entry (st : analyzer) : Prop :=
  ∀ k ds, (k, ds) ∈ dependency_graph st → ds ≠ [].

(** The cycle flag tells whether a cycle diagnostic was printed. *)
Definition cycle_flag_sound (st : analyzer) : Prop :=
  cycle_detected st = true ↔
  ∃ path pkg, cycle_message path pkg ∈ stdout st.

(** The names of [l] that are neither in [seen] nor earlier in [l], in the
    order of [l]. *)
Fixpoint first_occurrences (seen l : list string) : list string :=
  match l with
  | [] => []
  | x :: l =>
      if decide (x ∈ seen) then first_occurrences seen l
      else x :: first_occurrences (seen ++ [x]) l
  end.

(** [st'] is [st] with more lines printed. *)
Definition printed_more (st st' : analyzer) : Prop :=
  dependency_graph st' = dependency_graph st ∧
  cycle_detected st' = cycle_detected st ∧
  load_order st' = load_order st ∧
  all_packages st' = all_packages st ∧
  stdout st `prefix_of` stdout st'.

(** [st] holds what [base] held followed by what [delta] holds. *)
Definition joined (base delta st : analyzer) : Prop :=
  (∀ u, PyDict.get_default (dependency_graph st) u [] =
        PyDict.get_default (dependency_graph base) u [] ++
        PyDict.get_default (dependency_graph delta) u []) ∧
  PyDict.keys (dependency_graph st) =
    PyDict.keys (dependency_graph base) ++
    filter (λ k, k ∉ PyDict.keys (dependency_graph base))
      (PyDict.keys (dependency_graph delta)) ∧
  all_packages st = all_packages delta ∪ all_packages base ∧
  cycle_detected st = cycle_detected base || cycle_detected delta ∧
  load_order st = load_order base ∧
  stdout st = stdout base ++ stdout delta.

(** The [dependencies] member of an entry of [versions]. *)
Definition dependencies_of (version_data : json) : json :=
  match version_data with
  | JObject members => PyDict.get_default members "dependencies" (JObject [])
  | _ => JObject []
  end.

(** The answer of the typed lookup as a dict of parsed keys. *)
Definition named_keys (deps : list dep_edge) : list (json * string) :=
  (λ e : dep_edge, (JString e.1, e.2)) <$> deps.

(** [st'] is [st] with the lines [pre] printed first. *)
Definition printed_first (pre : list string) (st st' : analyzer) : Prop :=
  same_analysis st st' ∧ stdout st' = pre ++ stdout st.

(** * Sample repositories *)

(** The file system of a run with [--test-repo]: every path reads [data]. *)
Definition fixture_files (data : list (string * list string))
  : string → result (list (string * list string)) := λ _, Ok data.

Definition fixture_args (depth : Z) : Args :=
  {| url := "https://registry.npmjs.org";
     test_repo := Some "test_data.json";
     max_depth := depth |}.

Definition registry_args (depth : Z) : Args :=
  {| url := "https://registry.npmjs.org"; test_repo := None; max_depth := depth |}.

Definition no_registry : string → string → result (list dep_edge) :=
  λ _ _, Err "HTTP 503".

(** A top-level run of the builder on a fresh analyzer over a fixture. *)
Definition build_fixture (data : list (string * list string)) (depth : Z)
    (start_package : string) : analyzer :=
  build_dependency_graph_bfs no_registry (fixture_files data)
    (fixture_args depth) start_package 0 [] init.

Definition cyclic_fixture : list (string * list string) :=
  [("A", ["B"]); ("B", ["A"])].

Definition diamond_fixture : list (string * list string) :=
  [("A", ["B"; "C"]); ("B", []); ("C", ["B"])].

Definition leaf_fixture : list (string * list string) := [("A", [])].

Definition chain_fixture : list (string * list string) :=
  [("A", ["B"]); ("B", ["C"]); ("C", ["D"])].

(** A fixture in which two branches of depth two meet in [C]. *)
Definition merged_fixture : list (string * list string) :=
  [("A", ["B"; "C"]); ("B", ["C"]); ("C", ["D"])].

Definition two_cycle_registry : string → string → result (list dep_edge) :=
  λ _ package_name,
    if decide (package_name = "A") then Ok [("B", "^1.0.0")]
    else if decide (package_name = "B") then Ok [("A", "~2.1.0")]
    else Err ("Пакет '" +:+ package_name +:+ "' не найден в репозитории").

(** A registry in which [A] depends on [B], [C] and [D], and [C] is
    unknown. *)
Definition partial_registry : string → string → result (list dep_edge) :=
  λ _ package_name,
    if decide (package_name = "A") then
      Ok [("B", "^1.0.0"); ("C", "^2.0.0"); ("D", "*")]
    else if decide (package_name = "B") then Ok [("E", "1.2.3")]
    else if decide (package_name = "C") then
      Err "Пакет 'C' не найден в репозитории"
    else Ok [].

(** A registry in which [A] requires [B] with a proper version
    constraint. *)
Definition versioned_registry : string → string → result (list dep_edge) :=
  λ _ package_name,
    if decide (package_name = "A") then Ok [("B", "^1.0.0"); ("C", "*")]
    else Ok [].

(** ** Samples for the further properties *)

(** A ranking of the packages of [diamond_fixture] along its edges. *)
Definition diamond_rank (package : string) : nat :=
  if decide (package = "A") then 0
  else if decide (package = "C") then 1
  else 2.

(** A parsed fixture whose entry for [A] names [B] twice. *)
Definition sample_fixture : json :=
  JObject [("A", JArray [JString "B"; JString "C"; JString "B"]);
           ("B", JArray [])].

(** A sample registry document whose tagged version is not the last one
    listed. *)
Definition sample_versions : list (string * json) :=
  [ ("1.0.0", JObject [("dependencies", JObject [("right", JString "^1.2.0")])]);
    ("2.0.0", JObject [("dependencies", JObject [("pad", JString "~3.0.0")])]) ].

Definition sample_members : list (string * json) :=
  [ ("name", JString "left");
    ("dist-tags", JObject [("latest", JString "1.0.0"); ("next", JString "2.0.0")]);
    ("versions", JObject sample_versions) ].

Definition sample_document : json := JObject sample_members.

(** * Facts *)

(** ** Facts about dictionaries and edges *)

Section DictFacts.
Context {V : Type}.
Implicit Types (d : list (string * V)) (k : string) (v : V).

Lemma get_set_eq d k v : PyDict.get (PyDict.set d k v) k = Some v.
Proof.
  induction d as [|[k' v'] d IH]; simpl.
  - by rewrite decide_True.
  - destruct (decide (k = k')) as [->|Hne]; simpl.
    + by rewrite decide_True.
    + by rewrite decide_False.
Qed.

Lemma get_set_ne d k k' v :
  k ≠ k' → PyDict.get (PyDict.set d k v) k' = PyDict.get d k'.
Proof.
  intros Hne. induction d as [|[k0 v0] d IH]; simpl.
  - by rewrite decide_False.
  - destruct (decide (k = k0)) as [->|Hne0]; simpl.
    + by rewrite !decide_False.
    + by rewrite IH.
Qed.

Lemma get_None d k : PyDict.get d k = None ↔ k ∉ PyDict.keys d.
Proof.
  unfold PyDict.keys. induction d as [|[k' v'] d IH]; simpl.
  - split; [intros _; apply not_elem_of_nil | done].
  - rewrite not_elem_of_cons. destruct (decide (k = k')) as [->|Hne].
    + split; [done|]. intros [[] _]. done.
    + rewrite IH. split; [done|]. by intros [_ ?].
Qed.

Lemma get_Some_elem_of d k v : PyDict.get d k = Some v → (k, v) ∈ d.
Proof.
  induction d as [|[k' v'] d IH]; simpl; [done|].
  destruct (decide (k = k')) as [->|Hne].
  - intros [= ->]. left.
  - intros H. right. auto.
Qed.

Lemma elem_of_get d k v : PyDict.wf d → (k, v) ∈ d → PyDict.get d k = Some v.
Proof.
  unfold PyDict.wf, PyDict.keys.
  induction d as [|[k' v'] d IH]; simpl; [by intros _ ?%elem_of_nil|].
  rewrite NoDup_cons. intros [Hk Hd] [[= -> ->]|Hin]%elem_of_cons.
  - by rewrite decide_True.
  - rewrite decide_False; [auto|].
    intros ->. apply Hk. apply list_elem_of_fmap. by exists (k', v).
Qed.

Lemma keys_set d k v :
  PyDict.keys (PyDict.set d k v) =
  if decide (k ∈ PyDict.keys d) then PyDict.keys d else PyDict.keys d ++ [k].
Proof.
  unfold PyDict.keys. induction d as [|[k' v'] d IH].
  - destruct (decide (k ∈ [].*1)) as [H|_]; [by apply elem_of_nil in H|done].
  - cbn [PyDict.set]. destruct (decide (k = k')) as [->|Hne].
    + rewrite decide_True by (rewrite fmap_cons; left). done.
    + rewrite !fmap_cons, IH. cbn [fst].
      destruct (decide (k ∈ d.*1)) as [Hin|Hin].
      * rewrite decide_True by (by right). done.
      * rewrite decide_False; [done|]. rewrite not_elem_of_cons. done.
Qed.

Lemma wf_set d k v : PyDict.wf d → PyDict.wf (PyDict.set d k v).
Proof.
  unfold PyDict.wf. rewrite keys_set. case_decide; [done|].
  intros Hd. apply NoDup_app. split_and!; [done| |apply NoDup_singleton].
  intros x Hx ->%list_elem_of_singleton. done.
Qed.
End DictFacts.

Lemma wf_unpack (g : graph) : bool_decide (PyDict.wf g) = true → PyDict.wf g.
Proof. intros H. apply bool_decide_eq_true in H. exact H. Defined.

Lemma graph_append_nil pkg e : graph_append [] pkg e = [(pkg, [e])].
Proof. done. Qed.

Lemma graph_append_cons k deps g pkg e :
  graph_append ((k, deps) :: g) pkg e =
  if decide (pkg = k) then (k, deps ++ [e]) :: g
  else (k, deps) :: graph_append g pkg e.
Proof.
  unfold graph_append, PyDict.get_default. simpl.
  destruct (decide (pkg = k)) as [->|]; done.
Qed.

Lemma has_edge_graph_append g pkg e u v ver :
  has_edge (graph_append g pkg e) u v ver ↔
  has_edge g u v ver ∨ (u = pkg ∧ (v, ver) = e).
Proof.
  unfold has_edge. induction g as [|[k deps] g IH].
  - rewrite graph_append_nil. split.
    + intros (ds & Hin & Hv). apply list_elem_of_singleton in Hin.
      injection Hin as -> ->. apply list_elem_of_singleton in Hv. by right.
    + intros [(ds & Hin & _)|[-> <-]]; [by apply elem_of_nil in Hin|].
      exists [(v, ver)]. split; apply list_elem_of_singleton; done.
  - rewrite graph_append_cons. destruct (decide (pkg = k)) as [->|Hne].
    + split.
      * intros (ds & Hin & Hv). apply elem_of_cons in Hin as [Heq|Hin].
        -- injection Heq as -> ->. apply elem_of_app in Hv as [Hv|Hv].
           ++ left. exists deps. split; [left|done].
           ++ apply list_elem_of_singleton in Hv. by right.
        -- left. exists ds. split; [by right|done].
      * intros [(ds & Hin & Hv)|[-> <-]].
        -- apply elem_of_cons in Hin as [Heq|Hin].
           ++ injection Heq as -> ->. exists (deps ++ [e]).
              split; [left|]. apply elem_of_app. by left.
           ++ exists ds. split; [by right|done].
        -- exists (deps ++ [(v, ver)]). split; [left|].
           apply elem_of_app. right. by apply list_elem_of_singleton.
    + split.
      * intros (ds & Hin & Hv). apply elem_of_cons in Hin as [Heq|Hin].
        -- injection Heq as -> ->. left. exists deps. split; [left|done].
        -- destruct (proj1 IH) as [(ds' & ? & ?)|?]; [by exists ds| |by right].
           left. exists ds'. split; [by right|done].
      * intros [(ds & Hin & Hv)|[-> <-]].
        -- apply elem_of_cons in Hin as [Heq|Hin].
           ++ injection Heq as -> ->. exists deps. split; [left|done].
           ++ destruct (proj2 IH) as (ds' & ? & ?); [left; by exists ds|].
              exists ds'. split; [by right|done].
        -- destruct (proj2 IH) as (ds' & ? & ?); [by right|].
           exists ds'. split; [by right|done].
Qed.

Lemma graph_append_wf g pkg e : PyDict.wf g → PyDict.wf (graph_append g pkg e).
Proof. apply wf_set. Qed.

Lemma elem_of_targets g v : v ∈ targets g ↔ ∃ u ver, has_edge g u v ver.
Proof.
  unfold targets, has_edge. rewrite list_elem_of_bind. split.
  - intros ([u deps] & ([v' ver] & -> & Hin)%list_elem_of_fmap & Hg).
    exists u, ver, deps. done.
  - intros (u & ver & deps & Hg & Hin). exists (u, deps). split; [|done].
    apply list_elem_of_fmap. by exists (v, ver).
Qed.

Lemma has_edge_edge_list g u v ver :
  has_edge g u v ver ↔ (u, v, ver) ∈ edge_list g.
Proof.
  unfold has_edge, edge_list. rewrite list_elem_of_bind. split.
  - intros (deps & Hg & Hv). exists (u, deps). split; [|done].
    apply list_elem_of_fmap. by exists (v, ver).
  - intros ([u' deps] & Hv & Hg).
    apply list_elem_of_fmap in Hv as ([v' ver'] & [= -> -> ->] & Hv).
    by exists deps.
Qed.

Lemma endpoint_graph_append g pkg dep ver x :
  endpoint (graph_append g pkg (dep, ver)) x ↔
  endpoint g x ∨ x = pkg ∨ x = dep.
Proof.
  unfold endpoint. split.
  - intros (u & v & ver' & Hedge & Hx).
    apply has_edge_graph_append in Hedge as [Hedge|[-> [= -> ->]]].
    + left. eauto.
    + right. destruct Hx; auto.
  - intros [(u & v & ver' & Hedge & Hx)|Hx].
    + exists u, v, ver'. split; [|done]. apply has_edge_graph_append. by left.
    + exists pkg, dep, ver. split; [|done]. apply has_edge_graph_append.
      by right.
Qed.

(** ** Facts about the graph builder *)

Section BuilderFacts.
Variable registry : string → string → result (list dep_edge).
Variable files : string → result (list (string * list string)).
Variable args : Args.

Local Abbreviation lookup_deps := (get_direct_dependencies registry files args).
Local Abbreviation build := (build_fuel registry files args).
Local Abbreviation expand := (expand_dependencies registry files args).

Lemma build_fuel_unfold fuel pkg depth path st :
  build fuel pkg depth path st =
  if decide (depth >= max_depth args) then st
  else if decide (pkg ∈ path) then
    set_cycle_detected (print (cycle_message path pkg) st)
  else
    match lookup_deps pkg with
    | Err e => print (error_message pkg e) (add_package pkg st)
    | Ok deps =>
        match fuel with
        | O => add_package pkg st
        | S fuel' =>
            expand fuel' pkg depth path deps (add_package pkg st)
        end
    end.
Proof. destruct fuel; reflexivity. Qed.

Lemma expand_dependencies_cons fuel pkg depth path dep ver deps st :
  expand fuel pkg depth path ((dep, ver) :: deps) st =
  expand fuel pkg depth path deps
    (build fuel dep (depth + 1) (path ++ [pkg])
       (add_package dep (record_edge pkg (dep, ver) st))).
Proof. reflexivity. Qed.

(** Any amount of fuel that covers the remaining depth gives the same
    state: the recursion of the source ends by its depth bound. *)
Lemma build_fuel_stable fuel1 fuel2 pkg depth path st :
  (Z.to_nat (max_depth args - depth) ≤ fuel1)%nat →
  (Z.to_nat (max_depth args - depth) ≤ fuel2)%nat →
  build fuel1 pkg depth path st = build fuel2 pkg depth path st.
Proof.
  revert fuel2 pkg depth path st.
  induction fuel1 as [|fuel1 IH]; intros fuel2 pkg depth path st H1 H2;
    rewrite !(build_fuel_unfold _ pkg);
    destruct (decide (depth >= max_depth args)) as [|Hd]; try done;
    destruct (decide (pkg ∈ path)); try done;
    destruct (lookup_deps pkg) as [deps|e]; try done.
  - lia.
  - destruct fuel2 as [|fuel2]; [lia|].
    assert (Hstep : ∀ p pa s,
      build fuel1 p (depth + 1) pa s = build fuel2 p (depth + 1) pa s)
      by (intros; apply IH; lia).
    generalize (add_package pkg st). clear -Hstep.
    induction deps as [|[dep ver] deps IHd]; intros s; [done|].
    rewrite !expand_dependencies_cons, Hstep. apply IHd.
Qed.

Lemma build_fuel_enough fuel pkg depth path st :
  (Z.to_nat (max_depth args - depth) ≤ fuel)%nat →
  build fuel pkg depth path st =
  build_dependency_graph_bfs registry files args pkg depth path st.
Proof. intros. apply build_fuel_stable; [done|reflexivity]. Qed.

(** A relation that every elementary update of the builder respects is
    respected by a whole call. *)
Lemma build_fuel_rel (R : analyzer → analyzer → Prop) :
  (∀ st, R st st) →
  (∀ st1 st2 st3, R st1 st2 → R st2 st3 → R st1 st3) →
  (∀ pkg st, R st (add_package pkg st)) →
  (∀ pkg dep ver st, R st (add_package dep (record_edge pkg (dep, ver) st))) →
  (∀ line st, R st (print line st)) →
  (∀ st, R st (set_cycle_detected st)) →
  ∀ fuel pkg depth path st, R st (build fuel pkg depth path st).
Proof.
  intros Hrefl Htrans Hadd Hedge Hprint Hcycle.
  induction fuel as [|fuel IH]; intros pkg depth path st;
    rewrite build_fuel_unfold;
    destruct (decide (depth >= max_depth args)); try done;
    (destruct (decide (pkg ∈ path));
       [eapply Htrans; [apply Hprint|apply Hcycle]|]);
    (destruct (lookup_deps pkg) as [deps|e];
       [|eapply Htrans; [apply (Hadd pkg)|apply Hprint]]);
    [apply Hadd|].
  eapply Htrans; [apply (Hadd pkg)|]. generalize (add_package pkg st).
  induction deps as [|[dep ver] deps IHd]; intros s; [apply Hrefl|].
  rewrite expand_dependencies_cons.
  eapply Htrans; [apply (Hedge pkg dep ver)|].
  eapply Htrans; [apply IH|]. apply IHd.
Qed.

Lemma build_fuel_edges fuel pkg depth path st u v ver :
  has_edge (dependency_graph st) u v ver →
  has_edge (dependency_graph (build fuel pkg depth path st)) u v ver.
Proof.
  revert fuel pkg depth path st.
  apply (build_fuel_rel (λ st st', has_edge (dependency_graph st) u v ver →
                                   has_edge (dependency_graph st') u v ver));
    try (intros; simpl; tauto).
  intros pkg dep ver' st H. simpl. apply has_edge_graph_append. by left.
Qed.

Lemma build_fuel_packages fuel pkg depth path st :
  all_packages st ⊆ all_packages (build fuel pkg depth path st).
Proof.
  revert fuel pkg depth path st.
  apply (build_fuel_rel (λ st st', all_packages st ⊆ all_packages st'));
    intros; simpl; set_solver.
Qed.

Lemma build_fuel_wf fuel pkg depth path st :
  PyDict.wf (dependency_graph st) →
  PyDict.wf (dependency_graph (build fuel pkg depth path st)).
Proof.
  revert fuel pkg depth path st.
  apply (build_fuel_rel (λ st st', PyDict.wf (dependency_graph st) →
                                   PyDict.wf (dependency_graph st')));
    try (intros; simpl; tauto).
  intros pkg dep ver st H. simpl. by apply graph_append_wf.
Qed.

Lemma build_fuel_targets_known fuel pkg depth path st :
  targets_known st → targets_known (build fuel pkg depth path st).
Proof.
  revert fuel pkg depth path st.
  apply (build_fuel_rel (λ st st', targets_known st → targets_known st'));
    try (intros; simpl; tauto).
  - intros pkg st H v Hv. simpl. apply elem_of_union_r. by apply H.
  - intros pkg dep ver st H v Hv. simpl in *.
    apply elem_of_targets in Hv as (u & ver' & Hv).
    apply has_edge_graph_append in Hv as [Hv|[_ [= -> _]]].
    + apply elem_of_union_r, H, elem_of_targets. eauto.
    + apply elem_of_union_l. by apply elem_of_singleton.
Qed.

(** Every dependency the source returns for an expanded package becomes an
    edge, whatever happens below it: the edge is appended before the
    recursive call. *)
Lemma expand_dependencies_records fuel pkg depth path deps st v ver :
  (v, ver) ∈ deps →
  has_edge
    (dependency_graph (expand fuel pkg depth path deps st))
    pkg v ver.
Proof.
  assert (Hmono : ∀ l s,
    has_edge (dependency_graph s) pkg v ver →
    has_edge
      (dependency_graph (expand fuel pkg depth path l s))
      pkg v ver).
  { induction l as [|[dep ver'] l IHl]; intros s Hs; [done|].
    rewrite expand_dependencies_cons. apply IHl, build_fuel_edges.
    simpl. apply has_edge_graph_append. by left. }
  revert st. induction deps as [|[dep ver'] deps IHd]; intros st Hin.
  - by apply elem_of_nil in Hin.
  - rewrite expand_dependencies_cons.
    apply elem_of_cons in Hin as [[= <- <-]|Hin]; [|by apply IHd].
    apply Hmono, build_fuel_edges. simpl.
    apply has_edge_graph_append. by right.
Qed.

End BuilderFacts.

(** The builder keeps the dictionary well formed and every edge target in
    the set of packages. *)
Lemma build_state_ok registry files args pkg depth path :
  let st := build_dependency_graph_bfs registry files args pkg depth path init in
  PyDict.wf (dependency_graph st) ∧ targets_known st.
Proof.
  split.
  - apply build_fuel_wf. apply NoDup_nil_2.
  - apply build_fuel_targets_known. intros v Hv. by apply elem_of_nil in Hv.
Qed.

(** ** Depth bound and cycle check of the builder *)

Lemma chain_mono g g' root d x :
  (∀ u v ver, has_edge g u v ver → has_edge g' u v ver) →
  chain g root d x → chain g' root d x.
Proof.
  intros Hsub Hc. induction Hc as [|d u v ver _ IH Hedge]; [constructor|].
  econstructor; [exact IH|]. by apply Hsub.
Qed.

Lemma chain_zero g root x : chain g root O x → x = root.
Proof. by inversion 1. Qed.

Section DepthBound.
Variable registry : string → string → result (list dep_edge).
Variable files : string → result (list (string * list string)).
Variable args : Args.

Local Abbreviation lookup_deps := (get_direct_dependencies registry files args).
Local Abbreviation build := (build_fuel registry files args).
Local Abbreviation run := (build_dependency_graph_bfs registry files args).
Local Abbreviation bounded := (bounded registry files args).

Lemma bounded_same_graph root st st' :
  dependency_graph st' = dependency_graph st → bounded root st → bounded root st'.
Proof. unfold bounded. intros ->. done. Qed.

Lemma build_fuel_bounded root fuel pkg depth path st (n : nat) :
  depth = Z.of_nat n →
  chain (dependency_graph st) root n pkg →
  bounded root st → bounded root (build fuel pkg depth path st).
Proof.
  revert pkg depth path st n.
  induction fuel as [|fuel IH]; intros pkg depth path st n Hn Hchain Hb;
    rewrite build_fuel_unfold;
    destruct (decide (depth >= max_depth args)) as [|Hd]; try done;
    (destruct (decide (pkg ∈ path)); [by eapply bounded_same_graph|]);
    (destruct (lookup_deps pkg) as [deps|e] eqn:Hdeps;
       [|by eapply bounded_same_graph]);
    [by eapply bounded_same_graph|].
  assert (Hloop : ∀ rest s,
    (∀ e, e ∈ rest → e ∈ deps) →
    chain (dependency_graph s) root n pkg → bounded root s →
    bounded root (expand_dependencies registry files args fuel pkg depth path rest s)).
  { induction rest as [|[dep ver] rest IHr]; intros s Hsub Hc Hs; [done|].
    rewrite expand_dependencies_cons.
    set (s1 := add_package dep (record_edge pkg (dep, ver) s)).
    assert (Hmono : ∀ u v ver',
      has_edge (dependency_graph s) u v ver' →
      has_edge (dependency_graph s1) u v ver').
    { intros u v ver' H. simpl. apply has_edge_graph_append. by left. }
    assert (Hc1 : chain (dependency_graph s1) root n pkg)
      by (by eapply chain_mono).
    assert (Hnew : has_edge (dependency_graph s1) pkg dep ver).
    { simpl. apply has_edge_graph_append. by right. }
    assert (Hs1 : bounded root s1).
    { intros u v ver' Hedge. simpl in Hedge.
      apply has_edge_graph_append in Hedge as [Hold|[-> [= -> ->]]].
      - destruct (Hs u v ver' Hold) as [Hsrc (d & Hlt & Hcd)].
        split; [done|]. exists d. split; [done|]. by eapply chain_mono.
      - split.
        + exists deps. split; [done|]. apply Hsub. left.
        + exists n. split; [lia|done]. }
    apply IHr.
    - intros e He. apply Hsub. by right.
    - eapply chain_mono; [|exact Hc1]. intros u v ver'. apply build_fuel_edges.
    - apply (IH dep (depth + 1) (path ++ [pkg]) s1 (S n)); [lia| |done].
      by econstructor. }
  apply Hloop; [done| |by eapply bounded_same_graph].
  by eapply chain_mono.
Qed.

Lemma run_bounded start : bounded start (run start 0 [] init).
Proof.
  apply (build_fuel_bounded start _ start 0 [] init O); [done|constructor|].
  intros u v ver (deps & []%elem_of_nil & _).
Qed.

Lemma run_depth_reached pkg depth path st :
  depth >= max_depth args → run pkg depth path st = st.
Proof.
  intros Hd. unfold build_dependency_graph_bfs. rewrite build_fuel_unfold.
  by rewrite decide_True.
Qed.

Lemma run_cycle pkg depth path st :
  depth < max_depth args → pkg ∈ path →
  run pkg depth path st = set_cycle_detected (print (cycle_message path pkg) st).
Proof.
  intros Hd Hin. unfold build_dependency_graph_bfs. rewrite build_fuel_unfold.
  rewrite decide_False by lia. by rewrite decide_True.
Qed.

Lemma run_expand pkg depth path st deps :
  depth < max_depth args → pkg ∉ path → lookup_deps pkg = Ok deps →
  run pkg depth path st =
  expand_dependencies registry files args
    (Nat.pred (Z.to_nat (max_depth args - depth))) pkg depth path deps
    (add_package pkg st).
Proof.
  intros Hd Hin Hdeps. unfold build_dependency_graph_bfs.
  rewrite build_fuel_unfold, decide_False by lia.
  rewrite decide_False by done. rewrite Hdeps.
  destruct (Z.to_nat (max_depth args - depth)) eqn:Hfuel; [lia|done].
Qed.

Lemma run_error pkg depth path st e :
  depth < max_depth args → pkg ∉ path → lookup_deps pkg = Err e →
  run pkg depth path st = print (error_message pkg e) (add_package pkg st).
Proof.
  intros Hd Hin Hdeps. unfold build_dependency_graph_bfs.
  rewrite build_fuel_unfold, decide_False by lia.
  rewrite decide_False by done. by rewrite Hdeps.
Qed.

End DepthBound.

(** ** Failures of the dependency source *)

Lemma same_analysis_add pkg st st' :
  same_analysis st st' → same_analysis (add_package pkg st) (add_package pkg st').
Proof. intros (Hg & Hc & Hl & Hp). split_and!; simpl; congruence. Qed.

Lemma same_analysis_edge pkg e st st' :
  same_analysis st st' →
  same_analysis (record_edge pkg e st) (record_edge pkg e st').
Proof. intros (Hg & Hc & Hl & Hp). split_and!; simpl; congruence. Qed.

Lemma same_analysis_print_l line st st' :
  same_analysis st st' → same_analysis (print line st) st'.
Proof. intros (Hg & Hc & Hl & Hp). split_and!; simpl; congruence. Qed.

Lemma same_analysis_print_r line st st' :
  same_analysis st st' → same_analysis st (print line st').
Proof. intros (Hg & Hc & Hl & Hp). split_and!; simpl; congruence. Qed.

Lemma same_analysis_cycle st st' :
  same_analysis st st' →
  same_analysis (set_cycle_detected st) (set_cycle_detected st').
Proof. intros (Hg & Hc & Hl & Hp). split_and!; simpl; congruence. Qed.

(** Replacing every failure of the source by an empty answer changes
    nothing but the diagnostics. *)
Lemma build_fuel_recovered registry files args registry' files' args' :
  max_depth args' = max_depth args →
  (∀ p, get_direct_dependencies registry' files' args' p
        = recovered (get_direct_dependencies registry files args p)) →
  ∀ fuel pkg depth path st st',
    same_analysis st st' →
    same_analysis (build_fuel registry files args fuel pkg depth path st)
                  (build_fuel registry' files' args' fuel pkg depth path st').
Proof.
  intros Hmax Hsrc.
  induction fuel as [|fuel IH]; intros pkg depth path st st' Hst;
    rewrite !build_fuel_unfold, Hmax, Hsrc;
    destruct (decide (depth >= max_depth args)); try done;
    (destruct (decide (pkg ∈ path));
       [by apply same_analysis_cycle, same_analysis_print_l,
             same_analysis_print_r|]);
    destruct (get_direct_dependencies registry files args pkg) as [deps|e];
    simpl.
  - by apply same_analysis_add.
  - by apply same_analysis_print_l, same_analysis_add.
  - apply same_analysis_add with (pkg := pkg) in Hst.
    revert Hst. generalize (add_package pkg st) (add_package pkg st').
    induction deps as [|[dep ver] deps IHd]; intros s s' Hs; [done|].
    rewrite !expand_dependencies_cons.
    by apply IHd, IH, same_analysis_add, same_analysis_edge.
  - by apply same_analysis_print_l, same_analysis_add.
Qed.

(** ** The packages of a built graph *)

Section PackagesClosed.
Variable registry : string → string → result (list dep_edge).
Variable files : string → result (list (string * list string)).
Variable args : Args.

Local Abbreviation build := (build_fuel registry files args).

Lemma packages_closed_known start pkg st :
  pkg ∈ all_packages st → packages_closed start st →
  packages_closed start (add_package pkg st).
Proof.
  intros Hin Hc x. simpl. rewrite <- (Hc x), elem_of_union, elem_of_singleton.
  split; [intros [->|?]; done|auto].
Qed.

Lemma build_fuel_closed start fuel pkg depth path st :
  pkg ∈ all_packages st → packages_closed start st →
  packages_closed start (build fuel pkg depth path st).
Proof.
  revert pkg depth path st.
  induction fuel as [|fuel IH]; intros pkg depth path st Hin Hc;
    rewrite build_fuel_unfold;
    destruct (decide (depth >= max_depth args)); try done;
    (destruct (decide (pkg ∈ path)); [done|]);
    (destruct (get_direct_dependencies registry files args pkg) as [deps|e];
       [|by apply (packages_closed_known start pkg st)]);
    [by apply packages_closed_known|].
  assert (Hin' : pkg ∈ all_packages (add_package pkg st))
    by (simpl; set_solver).
  apply (packages_closed_known start pkg st Hin) in Hc.
  revert Hin' Hc. generalize (add_package pkg st).
  induction deps as [|[dep ver] deps IHd]; intros s Hs Hc; [done|].
  rewrite expand_dependencies_cons.
  set (s1 := add_package dep (record_edge pkg (dep, ver) s)).
  assert (Hc1 : packages_closed start s1).
  { intros x. simpl. rewrite endpoint_graph_append, elem_of_union,
      elem_of_singleton, (Hc x).
    split; [tauto|]. intros [?|[?|[->|?]]]; auto.
    right. by apply Hc. }
  apply IHd.
  - apply build_fuel_packages. simpl. set_solver.
  - apply IH; [simpl; set_solver|done].
Qed.

Lemma add_package_idemp pkg st :
  add_package pkg (add_package pkg st) = add_package pkg st.
Proof.
  unfold add_package. simpl. f_equal. apply set_eq. intros x.
  rewrite !elem_of_union. tauto.
Qed.

Lemma run_closed start x :
  let st := build_dependency_graph_bfs registry files args start 0 [] init in
  x = start ∨ x ∈ all_packages st ↔
  x = start ∨ endpoint (dependency_graph st) x.
Proof.
  intros st. subst st. unfold build_dependency_graph_bfs.
  assert (Hnone : ∀ y, ¬ endpoint (dependency_graph init) y).
  { intros y (u & v & ver & (deps & Hin & _) & _). by apply elem_of_nil in Hin. }
  destruct (decide (0 >= max_depth args)) as [Hd|Hd].
  - rewrite build_fuel_unfold, decide_True by done. simpl.
    split; (intros [?|H]; [by left|]).
    + by apply elem_of_empty in H.
    + by apply Hnone in H.
  - assert (Hstart : start ∈ all_packages (add_package start init))
      by (simpl; apply elem_of_union_l; by apply elem_of_singleton).
    assert (Hc : packages_closed start
      (build (Z.to_nat (max_depth args - 0)) start 0 []
         (add_package start init))).
    { apply build_fuel_closed; [done|].
      intros y. simpl. rewrite elem_of_union, elem_of_singleton. split.
      - intros [?|H]; [by left|]. by apply elem_of_empty in H.
      - intros [?|H]; [by left|]. by apply Hnone in H. }
    rewrite build_fuel_unfold in Hc. rewrite build_fuel_unfold.
    rewrite decide_False in Hc |- * by done.
    rewrite decide_False in Hc |- * by apply not_elem_of_nil.
    rewrite add_package_idemp in Hc. rewrite (Hc x). tauto.
Qed.

End PackagesClosed.

(** ** Facts about the load-order resolver *)

Lemma occ_nil v : occ v [] = 0.
Proof. done. Qed.

Lemma occ_cons v x l :
  occ v (x :: l) = (if decide (x = v) then 1 else 0) + occ v l.
Proof.
  unfold occ. rewrite filter_cons.
  destruct (decide (x = v)); simpl; lia.
Qed.

Lemma occ_app v l1 l2 : occ v (l1 ++ l2) = occ v l1 + occ v l2.
Proof. unfold occ. rewrite filter_app, length_app. lia. Qed.

Lemma occ_nonneg v l : 0 ≤ occ v l.
Proof. unfold occ. lia. Qed.

Lemma occ_zero v l : occ v l = 0 ↔ v ∉ l.
Proof.
  induction l as [|x l IH].
  - split; [intros _; apply not_elem_of_nil|done].
  - rewrite occ_cons, not_elem_of_cons. pose proof (occ_nonneg v l).
    destruct (decide (x = v)) as [->|Hne].
    + split; [lia|]. intros [[] _]. done.
    + rewrite <- IH. split; [intros; split; [congruence|lia]|intros [_ ?]; lia].
Qed.

Lemma occ_Permutation v l1 l2 : l1 ≡ₚ l2 → occ v l1 = occ v l2.
Proof. intros H. unfold occ. by rewrite H. Qed.

Lemma pending_nil g : pending [] g = targets g.
Proof.
  unfold pending, targets. induction g as [|[u deps] g IH]; [done|].
  rewrite !bind_cons, IH.
  destruct (decide (u ∈ [])) as [H|_]; [by apply elem_of_nil in H|done].
Qed.

Lemma elem_of_pending done g u v ver :
  has_edge g u v ver → u ∉ done → v ∈ pending done g.
Proof.
  intros (deps & Hg & Hv) Hu. unfold pending. apply list_elem_of_bind.
  exists (u, deps). split; [|done]. rewrite decide_False by done.
  apply list_elem_of_fmap. by exists (v, ver).
Qed.

Lemma pending_targets done g v : v ∈ pending done g → v ∈ targets g.
Proof.
  unfold pending, targets. rewrite !list_elem_of_bind.
  intros ([u deps] & Hv & Hg). exists (u, deps). split; [|done].
  destruct (decide (u ∈ done)); [by apply elem_of_nil in Hv|done].
Qed.

Lemma pending_fresh done c (g : graph) :
  c ∉ PyDict.keys g → pending (done ++ [c]) g = pending done g.
Proof.
  unfold pending, PyDict.keys. induction g as [|[u deps] g IH]; [done|].
  rewrite fmap_cons, not_elem_of_cons. intros [Hne Hc]. simpl in Hne.
  rewrite !bind_cons, IH by done. f_equal.
  destruct (decide (u ∈ done)) as [Hu|Hu].
  - rewrite decide_True; [done|]. apply elem_of_app. by left.
  - rewrite decide_False; [done|]. rewrite not_elem_of_app.
    split; [done|]. by intros ->%list_elem_of_singleton.
Qed.

(** Taking [c] from the queue moves its edge list out of the pending
    edges. *)
Lemma pending_pop done c (g : graph) :
  PyDict.wf g → c ∉ done →
  pending done g ≡ₚ pending (done ++ [c]) g ++ (PyDict.get_default g c []).*1.
Proof.
  unfold PyDict.wf, PyDict.get_default. intros Hwf Hc.
  induction g as [|[u deps] g IH]; [done|].
  unfold PyDict.keys in Hwf. rewrite fmap_cons in Hwf. simpl in Hwf.
  apply NoDup_cons in Hwf as [Hu Hwf].
  unfold pending at 1 2. rewrite !bind_cons. fold (pending done g).
  fold (pending (done ++ [c]) g). simpl.
  destruct (decide (c = u)) as [->|Hne].
  - rewrite decide_False by done. rewrite decide_True
      by (apply elem_of_app; right; by apply list_elem_of_singleton).
    rewrite pending_fresh by done. simpl. apply Permutation_app_comm.
  - rewrite <- (assoc_L (++)), <- IH by done.
    destruct (decide (u ∈ done)) as [Hin|Hin].
    + rewrite decide_True; [done|]. apply elem_of_app. by left.
    + rewrite decide_False; [done|]. rewrite not_elem_of_app.
      split; [done|]. intros ->%list_elem_of_singleton. done.
Qed.

Lemma neighbors_targets (g : graph) c x :
  x ∈ (PyDict.get_default g c []).*1 → x ∈ targets g.
Proof.
  unfold PyDict.get_default. destruct (PyDict.get g c) as [deps|] eqn:Hget.
  - simpl. intros ([v ver] & -> & Hin)%list_elem_of_fmap.
    apply elem_of_targets. exists c, ver, deps.
    split; [by apply get_Some_elem_of|done].
  - simpl. by intros ?%elem_of_nil.
Qed.

Lemma dd_get_insert (m : gmap string Z) k x v :
  dd_get (<[k := x]> m) v = if decide (k = v) then x else dd_get m v.
Proof.
  unfold dd_get. destruct (decide (k = v)) as [->|Hne].
  - by rewrite lookup_insert_eq.
  - by rewrite lookup_insert_ne.
Qed.

Lemma dd_get_all_zero (m : gmap string Z) :
  map_Forall (λ _ x, x = 0) m → ∀ v, dd_get m v = 0.
Proof.
  intros Hm v. unfold dd_get. destruct (m !! v) as [x|] eqn:Hv; [|done].
  simpl. by apply (Hm v x).
Qed.

Lemma count_in_degree_spec g v : dd_get (count_in_degree g) v = occ v (targets g).
Proof.
  unfold count_in_degree, targets.
  assert (Hinner : ∀ (deps : list dep_edge) m,
    dd_get (fold_left (λ m '(dep, _), <[dep := dd_get m dep + 1]> m) deps m) v
    = dd_get m v + occ v deps.*1).
  { induction deps as [|[dep ver] deps IH]; intros m.
    - simpl. rewrite occ_nil. lia.
    - cbn [fold_left]. rewrite fmap_cons. cbn [fst].
      rewrite IH, occ_cons, dd_get_insert.
      destruct (decide (dep = v)) as [->|]; lia. }
  assert (Houter : ∀ (g : graph) m,
    dd_get (fold_left (λ m '(_, deps),
      fold_left (λ m '(dep, _), <[dep := dd_get m dep + 1]> m) deps m) g m) v
    = dd_get m v + occ v (g ≫= λ '(_, deps), deps.*1)).
  { clear g. induction g as [|[u deps] g IH]; intros m.
    - simpl. rewrite occ_nil. lia.
    - cbn [fold_left]. rewrite bind_cons, IH, Hinner, occ_app. lia. }
  rewrite Houter. unfold dd_get at 1. by rewrite lookup_empty.
Qed.

Lemma fill_in_degree_spec nodes m v :
  dd_get (fill_in_degree nodes m) v = dd_get m v.
Proof.
  unfold fill_in_degree. revert m.
  induction nodes as [|node nodes IH]; intros m; simpl; [done|].
  rewrite IH. destruct (decide (m !! node = None)) as [Hnone|]; [|done].
  rewrite dd_get_insert. destruct (decide (node = v)) as [->|]; [|done].
  unfold dd_get. by rewrite Hnone.
Qed.

Lemma snoc_split (l l1 l2 : list string) (x v : string) :
  l ++ [x] = l1 ++ v :: l2 →
  (l2 = [] ∧ l1 = l ∧ v = x) ∨ (∃ l2', l2 = l2' ++ [x] ∧ l = l1 ++ v :: l2').
Proof.
  destruct l2 as [|y l2 _] using rev_ind.
  - intros H. apply (app_inj_tail l l1 x v) in H as [-> ->]. by left.
  - intros H. right. exists l2.
    rewrite app_comm_cons, (assoc_L (++)) in H.
    apply app_inj_tail in H as [-> ->]. done.
Qed.

(** One pass of the inner loop keeps the invariant; the queue grows by at
    most one entry. *)
Lemma visit_neighbor_inv g nodes in_degree pend1 pend2 done queue v :
  kahn_inv g nodes in_degree (pend1 ++ v :: pend2) (done ++ queue) →
  pend1 = pending done g →
  v ∈ targets g →
  let in_degree' := <[v := dd_get in_degree v - 1]> in_degree in
  let queue' :=
    if decide (dd_get in_degree' v = 0) then queue ++ [v] else queue in
  kahn_inv g nodes in_degree' (pend1 ++ pend2) (done ++ queue').
Proof.
  intros [Hcount Hnodup Hzero Hknown Hcomplete Hbefore] Hpend Hv. simpl.
  assert (Hpos : 1 ≤ dd_get in_degree v).
  { rewrite Hcount, occ_app, occ_cons, decide_True by done.
    pose proof (occ_nonneg v pend1). pose proof (occ_nonneg v pend2). lia. }
  assert (Hfresh : v ∉ done ++ queue).
  { intros Hin. apply Hzero in Hin. lia. }
  assert (Hcount' : ∀ x,
    dd_get (<[v := dd_get in_degree v - 1]> in_degree) x = occ x (pend1 ++ pend2)).
  { intros x. rewrite dd_get_insert. specialize (Hcount x).
    rewrite occ_app, occ_cons in Hcount. rewrite occ_app.
    destruct (decide (v = x)) as [->|]; lia. }
  assert (Hother : ∀ x, x ≠ v →
    dd_get (<[v := dd_get in_degree v - 1]> in_degree) x = dd_get in_degree x).
  { intros x Hx. rewrite dd_get_insert. destruct (decide (v = x)); congruence. }
  assert (Hself :
    dd_get (<[v := dd_get in_degree v - 1]> in_degree) v = dd_get in_degree v - 1).
  { rewrite dd_get_insert. destruct (decide (v = v)); congruence. }
  rewrite Hself.
  destruct (decide (dd_get in_degree v - 1 = 0)) as [Hnow|Hnow].
  - rewrite (assoc_L (++)). split.
    + done.
    + apply NoDup_app. split_and!; [done| |apply NoDup_singleton].
      intros x Hx ->%list_elem_of_singleton. done.
    + intros x [Hx| ->%list_elem_of_singleton]%elem_of_app.
      * rewrite Hother; [by apply Hzero|]. by intros ->.
      * by rewrite Hself.
    + intros x [Hx| ->%list_elem_of_singleton]%elem_of_app; [by apply Hknown|].
      by right.
    + intros x Hx Hx0. apply elem_of_app. destruct (decide (x = v)) as [->|Hne].
      * right. by apply list_elem_of_singleton.
      * left. apply Hcomplete; [done|]. by rewrite <- Hother.
    + intros l1 x l2 Hsplit u ver Hedge.
      apply snoc_split in Hsplit as [(-> & -> & ->)|(l2' & -> & Hsplit)].
      * destruct (decide (u ∈ done)) as [Hu|Hu];
          [apply elem_of_app; by left|].
        exfalso. assert (Hin : v ∈ pending done g)
          by (by eapply elem_of_pending).
        specialize (Hcount' v). rewrite Hself, Hnow, occ_app in Hcount'.
        pose proof (occ_nonneg v pend1). pose proof (occ_nonneg v pend2).
        assert (Hnone : occ v pend1 = 0) by lia.
        apply occ_zero in Hnone. by subst pend1.
      * by eapply Hbefore.
  - split; try done.
    + intros x Hx. rewrite Hother; [by apply Hzero|]. by intros ->.
    + intros x Hx Hx0. destruct (decide (x = v)) as [->|Hne].
      * by rewrite Hself in Hx0.
      * apply Hcomplete; [done|]. by rewrite <- Hother.
Qed.

Lemma visit_neighbors_inv g nodes done neighbors in_degree queue :
  kahn_inv g nodes in_degree (pending done g ++ neighbors.*1) (done ++ queue) →
  (∀ x, x ∈ neighbors.*1 → x ∈ targets g) →
  kahn_inv g nodes (visit_neighbors neighbors in_degree queue).1
    (pending done g) (done ++ (visit_neighbors neighbors in_degree queue).2)
  ∧ (length (visit_neighbors neighbors in_degree queue).2
     ≤ length queue + length neighbors)%nat.
Proof.
  revert in_degree queue.
  induction neighbors as [|[v ver] neighbors IH]; intros in_degree queue Hinv Hsub.
  - simpl in *. rewrite (right_id_L [] (++)) in Hinv. split; [done|lia].
  - rewrite fmap_cons in Hinv, Hsub. cbn [fst] in Hinv, Hsub.
    cbn [visit_neighbors].
    pose proof (visit_neighbor_inv _ _ _ _ _ _ _ _ Hinv eq_refl
                  (Hsub v (list_elem_of_here _ _))) as Hstep.
    cbv zeta in Hstep.
    apply IH in Hstep as [Hinv' Hlen].
    + split; [done|]. etrans; [apply Hlen|].
      case_decide; rewrite ?length_app; simpl; lia.
    + intros x Hx. apply Hsub. by right.
Qed.

(** The loop ends with an empty queue and keeps the invariant. *)
Lemma drain_inv g nodes fuel in_degree queue order :
  PyDict.wf g →
  kahn_inv g nodes in_degree (pending order g) (order ++ queue) →
  (length queue + length (pending order g) ≤ fuel)%nat →
  (drain fuel g in_degree queue order).1.2 = [] ∧
  kahn_inv g nodes (drain fuel g in_degree queue order).1.1
    (pending (drain fuel g in_degree queue order).2 g)
    (drain fuel g in_degree queue order).2.
Proof.
  intros Hwf. revert in_degree queue order.
  induction fuel as [|fuel IH]; intros in_degree queue order Hinv Hfuel.
  - destruct queue; [|simpl in Hfuel; lia]. simpl.
    rewrite (right_id_L [] (++)) in Hinv. done.
  - destruct queue as [|current queue].
    + simpl. rewrite (right_id_L [] (++)) in Hinv. done.
    + cbn [drain].
      assert (Hfresh : current ∉ order).
      { pose proof (inv_nodup _ _ _ _ _ Hinv) as Hnd.
        apply NoDup_app in Hnd as (_ & Hnd & _). intros Hin.
        apply (Hnd _ Hin). left. }
      pose proof (pending_pop order current g Hwf Hfresh) as Hperm.
      assert (Hinv1 : kahn_inv g nodes in_degree
        (pending (order ++ [current]) g ++ (PyDict.get_default g current []).*1)
        ((order ++ [current]) ++ queue)).
      { rewrite <- (assoc_L (++)). destruct Hinv as [Hcount ? ? ? ? ?].
        split; try done. intros v. rewrite Hcount. by apply occ_Permutation. }
      apply visit_neighbors_inv in Hinv1 as [Hinv2 Hlen];
        [|apply neighbors_targets].
      destruct (visit_neighbors (PyDict.get_default g current []) in_degree queue)
        as [in_degree' queue'] eqn:Hvisit.
      cbn [fst snd] in Hinv2, Hlen. apply IH; [done|].
      apply Permutation_length in Hperm.
      rewrite length_app, length_fmap in Hperm. simpl in Hfuel. lia.
Qed.

Lemma set_iter_NoDup ord s : NoDup (set_iter ord s).
Proof. rewrite (set_iter_perm ord s). apply NoDup_elements. Qed.

Lemma elem_of_set_iter ord s x : x ∈ set_iter ord s ↔ x ∈ s.
Proof. rewrite (set_iter_perm ord s). apply elem_of_elements. Qed.

Lemma length_targets g : length (targets g) = edge_count g.
Proof.
  unfold targets, edge_count. induction g as [|[u deps] g IH]; [done|].
  rewrite !bind_cons, !length_app, IH, length_fmap. done.
Qed.

(** When [calculate_load_order] leaves its loop the queue is empty and the
    invariant holds of the returned order. *)
Lemma kahn_spec ord st :
  PyDict.wf (dependency_graph st) →
  (kahn ord st).1.2 = [] ∧
  kahn_inv (dependency_graph st) (set_iter ord (all_packages st))
    (kahn ord st).1.1 (pending (kahn ord st).2 (dependency_graph st))
    (kahn ord st).2.
Proof.
  intros Hwf. unfold kahn. apply drain_inv; [done| |].
  - rewrite pending_nil. split.
    + intros v. by rewrite fill_in_degree_spec, count_in_degree_spec.
    + apply NoDup_filter, set_iter_NoDup.
    + intros v [Hv _]%list_elem_of_filter. done.
    + intros v [_ Hv]%list_elem_of_filter. by left.
    + intros v [Hv|Hv] H0.
      * apply list_elem_of_filter. done.
      * rewrite fill_in_degree_spec, count_in_degree_spec in H0.
        by apply occ_zero in H0.
    + intros l1 v l2 Hsplit u ver Hedge. exfalso.
      assert (Hv : v ∈ filter
        (λ node, dd_get (fill_in_degree (set_iter ord (all_packages st))
                           (count_in_degree (dependency_graph st))) node = 0)
        (set_iter ord (all_packages st))).
      { simpl in Hsplit. rewrite Hsplit. apply elem_of_app. right. left. }
      apply list_elem_of_filter in Hv as [Hv _].
      rewrite fill_in_degree_spec, count_in_degree_spec in Hv.
      apply occ_zero in Hv. apply Hv, elem_of_targets. eauto.
  - rewrite pending_nil, length_targets. lia.
Qed.

Lemma kahn_NoDup ord st :
  PyDict.wf (dependency_graph st) → NoDup (kahn ord st).2.
Proof. intros Hwf. by destruct (kahn_spec ord st Hwf) as [_ []]. Qed.

Lemma kahn_known ord st v :
  PyDict.wf (dependency_graph st) →
  v ∈ (kahn ord st).2 →
  v ∈ all_packages st ∨ v ∈ targets (dependency_graph st).
Proof.
  intros Hwf Hv. destruct (kahn_spec ord st Hwf) as [_ [_ _ _ Hknown _ _]].
  destruct (Hknown v Hv) as [?%elem_of_set_iter|?]; auto.
Qed.

Lemma kahn_residual ord st v :
  PyDict.wf (dependency_graph st) →
  v ∈ all_packages st ∨ v ∈ targets (dependency_graph st) →
  v ∈ (kahn ord st).2 ↔ residual_in_degree ord st v = 0.
Proof.
  intros Hwf Hv. destruct (kahn_spec ord st Hwf) as [_ [_ _ Hzero _ Hcomplete _]].
  split; [apply Hzero|]. apply Hcomplete.
  destruct Hv as [Hv|Hv]; [left; by apply elem_of_set_iter|by right].
Qed.

(** Whoever is in the returned order stands after all its predecessors. *)
Lemma kahn_before ord st u v ver :
  PyDict.wf (dependency_graph st) →
  has_edge (dependency_graph st) u v ver →
  v ∈ (kahn ord st).2 →
  before u v (kahn ord st).2.
Proof.
  intros Hwf Hedge Hv.
  destruct (kahn_spec ord st Hwf) as [_ [_ _ _ _ _ Hbefore]].
  apply list_elem_of_split in Hv as (l1 & l3 & Hsplit).
  pose proof (Hbefore l1 v l3 Hsplit u ver Hedge) as Hu.
  apply list_elem_of_split in Hu as (l1' & l2 & ->).
  exists l1', l2, l3. rewrite Hsplit, <- (assoc_L (++)). done.
Qed.

(** The loop reads the counters through [dd_get] only. *)
Lemma visit_neighbors_ext neighbors m1 m2 queue :
  (∀ v, dd_get m1 v = dd_get m2 v) →
  (visit_neighbors neighbors m1 queue).2 = (visit_neighbors neighbors m2 queue).2
  ∧ ∀ v, dd_get (visit_neighbors neighbors m1 queue).1 v
         = dd_get (visit_neighbors neighbors m2 queue).1 v.
Proof.
  revert m1 m2 queue.
  induction neighbors as [|[n ver] neighbors IH]; intros m1 m2 queue Hm; [done|].
  cbn [visit_neighbors].
  assert (Hm' : ∀ v, dd_get (<[n := dd_get m1 n - 1]> m1) v
                     = dd_get (<[n := dd_get m2 n - 1]> m2) v).
  { intros v. rewrite !dd_get_insert, !Hm. done. }
  rewrite (Hm' n). by apply IH.
Qed.

Lemma drain_ext fuel g m1 m2 queue order :
  (∀ v, dd_get m1 v = dd_get m2 v) →
  (drain fuel g m1 queue order).2 = (drain fuel g m2 queue order).2.
Proof.
  revert m1 m2 queue order.
  induction fuel as [|fuel IH]; intros m1 m2 queue order Hm; [done|].
  destruct queue as [|current queue]; [done|]. cbn [drain].
  destruct (visit_neighbors_ext (PyDict.get_default g current []) m1 m2 queue Hm)
    as [Hq Hm'].
  destruct (visit_neighbors _ m1 queue) as [m1' q1].
  destruct (visit_neighbors _ m2 queue) as [m2' q2].
  simpl in Hq, Hm'. subst q2. by apply IH.
Qed.

(** The returned order is determined by the graph and by the order in which
    the packages without incoming edges come out of the set. *)
Lemma kahn_order ord st :
  (kahn ord st).2 =
  let g := dependency_graph st in
  let queue := filter (λ node, occ node (targets g) = 0)
                 (set_iter ord (all_packages st)) in
  (drain (length queue + edge_count g) g (count_in_degree g) queue []).2.
Proof.
  unfold kahn. cbv zeta.
  rewrite (list_filter_iff _ (λ node, occ node (targets (dependency_graph st)) = 0))
    by (intros x; by rewrite fill_in_degree_spec, count_in_degree_spec).
  apply drain_ext. intros v. apply fill_in_degree_spec.
Qed.

(** ** The shape of the declaration lines *)

Lemma length_append_r (s t : string) :
  (String.length t ≤ String.length (s +:+ t))%nat.
Proof. induction s as [|a s IH]; [reflexivity|]. simpl. lia. Qed.

Lemma penultimate_append (s t : string) :
  (2 ≤ String.length t)%nat → penultimate (s +:+ t) = penultimate t.
Proof.
  intros Ht. induction s as [|a s IH]; [done|].
  change (String a s +:+ t) with (String a (s +:+ t)).
  pose proof (length_append_r s t) as Hlen.
  destruct (s +:+ t) as [|b [|c r]] eqn:Happ; simpl in Hlen; try lia.
  rewrite <- IH. done.
Qed.

Lemma two_le_append (s t : string) :
  (2 ≤ String.length t)%nat → (2 ≤ String.length (s +:+ t))%nat.
Proof. intros H. etrans; [exact H|apply length_append_r]. Qed.

Lemma penultimate_node_declaration package :
  penultimate (node_declaration package) = Some (Ascii.ascii_of_nat 34).
Proof.
  unfold node_declaration.
  rewrite (penultimate_append "    "), (penultimate_append dq),
    (penultimate_append package); [done|..];
    repeat first [ by (vm_compute; lia) | apply two_le_append ].
Qed.

Lemma penultimate_start_declaration package :
  penultimate (start_declaration package) = Some (Ascii.ascii_of_nat 93).
Proof.
  unfold start_declaration.
  rewrite (penultimate_append "    "), (penultimate_append dq),
    (penultimate_append package), (penultimate_append dq),
    (penultimate_append " [fillcolor=orange, style="),
    (penultimate_append dq), (penultimate_append "filled,bold"),
    (penultimate_append dq); [done|..];
    repeat first [ by (vm_compute; lia) | apply two_le_append ].
Qed.

(** A plain declaration is never a declaration with the fill attribute. *)
Lemma declarations_differ p q : node_declaration p ≠ start_declaration q.
Proof.
  intros H. apply (f_equal penultimate) in H.
  rewrite penultimate_node_declaration, penultimate_start_declaration in H.
  discriminate H.
Qed.

Lemma append_nil_r (s : string) : s +:+ "" = s.
Proof.
  induction s as [|a s IH]; [done|].
  change (String a s +:+ "") with (String a (s +:+ "")). by rewrite IH.
Qed.

Lemma append_inj_r (s1 s2 t : string) : s1 +:+ t = s2 +:+ t → s1 = s2.
Proof.
  revert s2. induction s1 as [|a s1 IH]; intros [|b s2] H.
  - done.
  - exfalso. change (t = String b (s2 +:+ t)) in H.
    apply (f_equal String.length) in H. simpl in H.
    pose proof (length_append_r s2 t). lia.
  - exfalso. change (String a (s1 +:+ t) = t) in H.
    apply (f_equal String.length) in H. simpl in H.
    pose proof (length_append_r s1 t). lia.
  - change (String a (s1 +:+ t) = String b (s2 +:+ t)) in H.
    injection H as -> H. f_equal. by apply IH.
Qed.

(** Distinct packages have distinct declarations. *)
Lemma node_declaration_inj p q : node_declaration p = node_declaration q → p = q.
Proof.
  unfold node_declaration. intros H.
  apply (inj (String.append "    ")) in H.
  apply (inj (String.append dq)) in H.
  by apply append_inj_r in H.
Qed.

(** ** The tree renderer *)

(** Looking up a package commutes with rewriting the constraints. *)
Lemma get_with_versions ver g k :
  PyDict.get (with_versions ver g) k
  = fmap (M := option) (fmap (M := list) (λ e : dep_edge, (e.1, ver)))
      (PyDict.get g k).
Proof.
  unfold with_versions. induction g as [|[u deps] g IH]; [done|].
  rewrite fmap_cons. simpl. destruct (decide (k = u)); done.
Qed.

(** Graphs of the same shape give the same children, in the same order. *)
Lemma same_shape_neighbors st st' k :
  same_shape st st' →
  (PyDict.get_default (dependency_graph st) k []).*1
  = (PyDict.get_default (dependency_graph st') k []).*1.
Proof.
  intros [_ Hg]. unfold PyDict.get_default.
  pose proof (get_with_versions "*" (dependency_graph st) k) as H1.
  pose proof (get_with_versions "*" (dependency_graph st') k) as H2.
  rewrite Hg, H2 in H1.
  destruct (PyDict.get (dependency_graph st) k) as [d|],
    (PyDict.get (dependency_graph st') k) as [d'|]; simpl in *; try done.
  injection H1 as H1. apply (f_equal (fmap (M := list) fst)) in H1.
  rewrite <- !list_fmap_compose in H1. done.
Qed.

Lemma same_shape_print line st st' :
  same_shape st st' → same_shape (print line st) (print line st').
Proof. intros [Ho Hg]. split; simpl; congruence. Qed.

Lemma print_children_shape render render' count i rest rest' st st' :
  (∀ dep b s s', same_shape s s' →
     option_Forall2 same_shape (render dep b s) (render' dep b s')) →
  rest.*1 = rest'.*1 →
  same_shape st st' →
  option_Forall2 same_shape
    (print_children render count i rest st)
    (print_children render' count i rest' st').
Proof.
  intros Hrender. revert i rest' st st'.
  induction rest as [|[dep ver] rest IH]; intros i [|[dep' ver'] rest'] st st' Hfst Hst;
    try discriminate Hfst.
  - by constructor.
  - rewrite !fmap_cons in Hfst. injection Hfst as <- Hfst.
    cbn [print_children]. cbv zeta.
    destruct (Hrender dep (bool_decide (Z.of_nat i = Z.of_nat count - 1))
                st st' Hst) as [s s' Hs|]; [|constructor].
    by apply IH.
Qed.

(** On graphs of the same shape the renderer prints the same lines. *)
Lemma print_ascii_tree_shape fuel start current prefix is_last st st' :
  same_shape st st' →
  option_Forall2 same_shape
    (print_ascii_tree fuel start current prefix is_last st)
    (print_ascii_tree fuel start current prefix is_last st').
Proof.
  revert current prefix is_last st st'.
  induction fuel as [|fuel IH]; intros current prefix is_last st st' Hst;
    [constructor|].
  cbn [print_ascii_tree].
  assert (Hbody : ∀ node s s', same_shape s s' →
    option_Forall2 same_shape
      (let s1 := print (prefix +:+ (if is_last then "└── " else "├── ") +:+ node) s in
       match PyDict.get_default (dependency_graph s1) node [] with
       | [] => Some s1
       | _ :: _ =>
           print_children
             (λ dep b s2, print_ascii_tree fuel start (Some dep)
                (prefix +:+ (if is_last then "    " else "│   ")) b s2)
             (length (PyDict.get_default (dependency_graph s1) node []))
             O (PyDict.get_default (dependency_graph s1) node []) s1
       end)
      (let s1 := print (prefix +:+ (if is_last then "└── " else "├── ") +:+ node) s' in
       match PyDict.get_default (dependency_graph s1) node [] with
       | [] => Some s1
       | _ :: _ =>
           print_children
             (λ dep b s2, print_ascii_tree fuel start (Some dep)
                (prefix +:+ (if is_last then "    " else "│   ")) b s2)
             (length (PyDict.get_default (dependency_graph s1) node []))
             O (PyDict.get_default (dependency_graph s1) node []) s1
       end)).
  { intros node s s' Hs. cbv zeta.
    set (line := prefix +:+ (if is_last then "└── " else "├── ") +:+ node).
    pose proof (same_shape_print line s s' Hs) as Hs1.
    pose proof (same_shape_neighbors _ _ node Hs1) as Hn.
    destruct (PyDict.get_default (dependency_graph (print line s)) node [])
      as [|e deps] eqn:Hd,
      (PyDict.get_default (dependency_graph (print line s')) node [])
      as [|e' deps'] eqn:Hd'; try discriminate Hn.
    - by constructor.
    - assert (Hlen : length (e :: deps) = length (e' :: deps')).
      { apply (f_equal length) in Hn. by rewrite !length_fmap in Hn. }
      rewrite Hlen. apply print_children_shape; [|done|done].
      intros dep b s2 s2' Hs2. by apply IH. }
  destruct current as [node|]; cbv zeta beta iota.
  - by apply Hbody.
  - by apply Hbody, same_shape_print, same_shape_print.
Qed.

Lemma with_versions_idemp ver ver' g :
  with_versions ver (with_versions ver' g) = with_versions ver g.
Proof.
  unfold with_versions. rewrite <- list_fmap_compose.
  apply list_fmap_ext. intros _ [u deps] _. simpl. f_equal.
  rewrite <- list_fmap_compose. by apply list_fmap_ext.
Qed.

(** The tree does not depend on the version constraints of the graph:
    [version_info] never reaches [print]. *)
Lemma print_ascii_tree_ignores_versions fuel start current prefix is_last st ver :
  stdout <$> print_ascii_tree fuel start current prefix is_last
               (set_graph (with_versions ver (dependency_graph st)) st)
  = stdout <$> print_ascii_tree fuel start current prefix is_last st.
Proof.
  assert (Hst : same_shape
    (set_graph (with_versions ver (dependency_graph st)) st) st).
  { split; [done|]. simpl. apply with_versions_idemp. }
  destruct (print_ascii_tree_shape fuel start current prefix is_last _ _ Hst)
    as [s s' [Hout _]|]; simpl; [by rewrite Hout|done].
Qed.

(** ** More facts about the graph builder *)

(** A relation respected by each of the four kinds of update the builder
    makes is respected by a whole call. *)
Lemma build_fuel_steps registry files args (R : analyzer → analyzer → Prop) :
  (∀ st, R st st) →
  (∀ st1 st2 st3, R st1 st2 → R st2 st3 → R st1 st3) →
  (∀ pkg st, R st (add_package pkg st)) →
  (∀ pkg dep ver st, R st (add_package dep (record_edge pkg (dep, ver) st))) →
  (∀ pkg e st, R st (print (error_message pkg e) st)) →
  (∀ path pkg st, R st (set_cycle_detected (print (cycle_message path pkg) st))) →
  ∀ fuel pkg depth path st,
    R st (build_fuel registry files args fuel pkg depth path st).
Proof.
  intros Hrefl Htrans Hadd Hedge Herr Hcycle.
  induction fuel as [|fuel IH]; intros pkg depth path st;
    rewrite build_fuel_unfold;
    destruct (decide (depth >= max_depth args)); try done;
    (destruct (decide (pkg ∈ path)); [apply Hcycle|]);
    (destruct (get_direct_dependencies registry files args pkg) as [deps|e];
       [|eapply Htrans; [apply (Hadd pkg)|apply Herr]]);
    [apply Hadd|].
  eapply Htrans; [apply (Hadd pkg)|]. generalize (add_package pkg st).
  induction deps as [|[dep ver] deps IHd]; intros s; [apply Hrefl|].
  rewrite expand_dependencies_cons.
  eapply Htrans; [apply (Hedge pkg dep ver)|].
  eapply Htrans; [apply IH|]. apply IHd.
Qed.

Lemma get_graph_append g pkg e u :
  PyDict.get (graph_append g pkg e) u =
  if decide (pkg = u) then Some (PyDict.get_default g pkg [] ++ [e])
  else PyDict.get g u.
Proof.
  unfold graph_append. destruct (decide (pkg = u)) as [->|Hne].
  - apply get_set_eq.
  - by apply get_set_ne.
Qed.

Lemma keys_graph_append g pkg e :
  PyDict.keys g `prefix_of` PyDict.keys (graph_append g pkg e).
Proof.
  unfold graph_append. rewrite keys_set. case_decide; [done|].
  by apply prefix_app_r.
Qed.

Lemma extends_refl st : extends st st.
Proof.
  split_and!; try done.
  intros u deps H. exists []. by rewrite (right_id_L [] (++)).
Qed.

Lemma extends_trans st1 st2 st3 :
  extends st1 st2 → extends st2 st3 → extends st1 st3.
Proof.
  intros (Hg & Hk & Hp & Hc & Hl & Ho) (Hg' & Hk' & Hp' & Hc' & Hl' & Ho').
  split_and!.
  - intros u deps H. destruct (Hg u deps H) as [m1 H1].
    destruct (Hg' u _ H1) as [m2 H2]. exists (m1 ++ m2).
    by rewrite (assoc_L (++)).
  - by etrans.
  - by etrans.
  - auto.
  - congruence.
  - by etrans.
Qed.

Lemma elem_of_graph_append g pkg e k ds :
  (k, ds) ∈ graph_append g pkg e →
  (k = pkg ∧ ∃ old, ds = old ++ [e]) ∨ (k, ds) ∈ g.
Proof.
  induction g as [|[k' ds'] g IH].
  - rewrite graph_append_nil. intros [= -> ->]%list_elem_of_singleton.
    left. split; [done|]. by exists [].
  - rewrite graph_append_cons. destruct (decide (pkg = k')) as [->|Hne].
    + intros [[= -> ->]|Hin]%elem_of_cons.
      * left. split; [done|]. by exists ds'.
      * right. by right.
    + intros [[= -> ->]|Hin]%elem_of_cons.
      * right. left.
      * destruct (IH Hin) as [?|?]; [by left|]. right. by right.
Qed.

Lemma build_fuel_no_empty_entry registry files args fuel pkg depth path st :
  no_empty_entry st →
  no_empty_entry (build_fuel registry files args fuel pkg depth path st).
Proof.
  revert fuel pkg depth path st.
  apply (build_fuel_steps registry files args
           (λ st st', no_empty_entry st → no_empty_entry st'));
    try (intros; simpl; tauto).
  intros p dep ver s Hs k ds Hin. simpl in Hin.
  apply elem_of_graph_append in Hin as [[_ [old ->]]|Hin]; [|by eapply Hs].
  by destruct old.
Qed.

(** A call that expands its package continues from the state in which the
    package is already known. *)
Lemma run_from_added registry files args pkg depth path st :
  depth < max_depth args → pkg ∉ path →
  build_dependency_graph_bfs registry files args pkg depth path st =
  build_fuel registry files args (Z.to_nat (max_depth args - depth))
    pkg depth path (add_package pkg st).
Proof.
  intros Hd Hpath. unfold build_dependency_graph_bfs.
  rewrite !(build_fuel_unfold _ _ _ _ pkg).
  rewrite !decide_False by (done || lia).
  by rewrite add_package_idemp.
Qed.

Lemma run_start_known registry files args pkg depth path st :
  depth < max_depth args → pkg ∉ path →
  pkg ∈ all_packages
          (build_dependency_graph_bfs registry files args pkg depth path st).
Proof.
  intros Hd Hpath. rewrite run_from_added by done.
  apply build_fuel_packages. simpl. apply elem_of_union_l.
  by apply elem_of_singleton.
Qed.

(** The two diagnostics differ in their eleventh byte. *)
Lemma cycle_message_not_error path pkg pkg' e :
  cycle_message path pkg ≠ error_message pkg' e.
Proof.
  intros H. apply (f_equal (String.get 10)) in H.
  unfold cycle_message, error_message in H.
  rewrite <- !String.append_correct1 in H by (simpl; lia).
  vm_compute in H. discriminate H.
Qed.

Lemma build_fuel_cycle_flag registry files args fuel pkg depth path st :
  cycle_flag_sound st →
  cycle_flag_sound (build_fuel registry files args fuel pkg depth path st).
Proof.
  revert fuel pkg depth path st.
  apply (build_fuel_steps registry files args
           (λ st st', cycle_flag_sound st → cycle_flag_sound st'));
    try (intros; simpl; tauto).
  - intros p e s Hs. unfold cycle_flag_sound in *. simpl. rewrite Hs. split.
    + intros (pa & q & Hin). exists pa, q. apply elem_of_app. by left.
    + intros (pa & q & [Hin|Hin%list_elem_of_singleton]%elem_of_app).
      * by exists pa, q.
      * by apply cycle_message_not_error in Hin.
  - intros pa p s _. unfold cycle_flag_sound. simpl. split; [|done].
    intros _. exists pa, p. apply elem_of_app. right. left.
Qed.

(** ** The fixture-backed dependency source *)

Lemma elem_of_set {V} (d : list (string * V)) k0 v0 k v :
  (k, v) ∈ PyDict.set d k0 v0 → (k = k0 ∧ v = v0) ∨ (k, v) ∈ d.
Proof.
  induction d as [|[k' v'] d IH]; simpl.
  - intros [= -> ->]%list_elem_of_singleton. by left.
  - destruct (decide (k0 = k')) as [->|Hne].
    + intros [[= -> ->]|Hin]%elem_of_cons; [by left|]. right. by right.
    + intros [[= -> ->]|Hin]%elem_of_cons; [right; left|].
      destruct (IH Hin) as [?|?]; [by left|]. right. by right.
Qed.

(** Filling a dictionary with the names of [l], each mapped to ["*"]. *)
Lemma wildcard_fold l (d : list dep_edge) :
  let r := fold_left (λ d dep, PyDict.set d dep "*") l d in
  (PyDict.wf d → PyDict.wf r) ∧
  (∀ x, x ∈ PyDict.keys r ↔ x ∈ PyDict.keys d ∨ x ∈ l) ∧
  (∃ new, PyDict.keys r = PyDict.keys d ++ new ∧ new `sublist_of` l) ∧
  (∀ v ver, (v, ver) ∈ r → (v, ver) ∈ d ∨ ver = "*").
Proof.
  revert d. induction l as [|x l IH]; intros d; cbn [fold_left].
  - split_and!; [done| |exists []; by rewrite (right_id_L [] (++))|auto].
    intros y. split; [auto|]. intros [?|Hin]; [done|]. by apply elem_of_nil in Hin.
  - destruct (IH (PyDict.set d x "*")) as (Hwf & Hmem & (new & Hkeys & Hsub) & Hval).
    split_and!.
    + intros Hd. by apply Hwf, wf_set.
    + intros y. rewrite Hmem, keys_set, elem_of_cons.
      destruct (decide (x ∈ PyDict.keys d)) as [Hx|Hx].
      * split; [tauto|]. intros [?|[->|?]]; auto.
      * rewrite elem_of_app, list_elem_of_singleton. tauto.
    + rewrite Hkeys, keys_set. destruct (decide (x ∈ PyDict.keys d)).
      * exists new. split; [done|]. by apply sublist_cons.
      * exists (x :: new). rewrite <- (assoc_L (++)). split; [done|].
        by apply sublist_skip.
    + intros v ver Hin. destruct (Hval v ver Hin) as [Hold|?]; [|by right].
      apply elem_of_set in Hold as [[_ ->]|?]; auto.
Qed.

Lemma wildcard_fold_keys l (d : list dep_edge) :
  PyDict.keys (fold_left (λ d dep, PyDict.set d dep "*") l d)
  = PyDict.keys d ++ first_occurrences (PyDict.keys d) l.
Proof.
  revert d. induction l as [|x l IH]; intros d; cbn [fold_left first_occurrences].
  - by rewrite (right_id_L [] (++)).
  - rewrite IH, keys_set. destruct (decide (x ∈ PyDict.keys d)); [done|].
    by rewrite <- (assoc_L (++)).
Qed.

Section FixtureFacts.
Variable lookup_text : lookup_exception → string.
Variable float_is_zero : string → bool.
Variable characters : string → list string.
Variable same_key : json → json → bool.
Variable load_json : string → result json.

Local Abbreviation comprehension := (wildcard_comprehension same_key).
Local Abbreviation lookup :=
  (get_fixture_dependencies lookup_text float_is_zero characters same_key
     load_json).

Lemma dict_put_name (d : list dep_edge) name :
  dict_put same_key (named_keys d) (JString name)
  = named_keys (PyDict.set d name "*").
Proof.
  induction d as [|[k v] d IH]; [done|].
  cbn [named_keys fmap list_fmap dict_put PyDict.set same_dict_key fst snd].
  destruct (decide (name = k)) as [->|Hne].
  - by rewrite bool_decide_eq_true_2.
  - rewrite bool_decide_eq_false_2 by congruence.
    unfold named_keys in *. rewrite fmap_cons. cbn [fst snd].
    f_equal. apply IH.
Qed.

(** Over names the comprehension is the one of the typed lookup. *)
Lemma comprehension_names names (d : list dep_edge) :
  comprehension (named_keys d) (JString <$> names)
  = inr (named_keys (fold_left (λ d dep, PyDict.set d dep "*") names d)).
Proof.
  revert d. induction names as [|name names IH]; intros d; [done|].
  cbn [fmap list_fmap wildcard_comprehension hashable fold_left].
  rewrite dict_put_name. apply IH.
Qed.

(** A list or dict among names stops the comprehension. *)
Lemma comprehension_unhashable front bad back (d : list dep_edge) :
  hashable bad = false →
  comprehension (named_keys d) ((JString <$> front) ++ bad :: back)
  = inl (NotHashed bad).
Proof.
  intros Hbad. revert d. induction front as [|name front IH]; intros d.
  - simpl. by rewrite Hbad.
  - cbn [fmap list_fmap app wildcard_comprehension hashable].
    rewrite dict_put_name. apply IH.
Qed.

Lemma wildcard_dict_keys names :
  let deps := wildcard_dict names in
  deps.*1 = first_occurrences [] names ∧
  NoDup deps.*1 ∧
  (∀ x, x ∈ deps.*1 ↔ x ∈ names) ∧
  (∀ v ver, (v, ver) ∈ deps → ver = "*").
Proof.
  intros deps. subst deps. unfold wildcard_dict.
  destruct (wildcard_fold names []) as (Hwf & Hmem & _ & Hval).
  unfold PyDict.keys in *. split_and!.
  - apply (wildcard_fold_keys names []).
  - apply Hwf. apply NoDup_nil_2.
  - intros x. rewrite Hmem. split; [|auto]. intros [Hin|?]; [|done].
    by apply elem_of_nil in Hin.
  - intros v ver Hin. destruct (Hval v ver Hin) as [Hnil|?]; [|done].
    by apply elem_of_nil in Hnil.
Qed.

(** The lookup on an object whose entry iterates over names. *)
Lemma lookup_names file_path package_name members entry names :
  load_json file_path = Ok (JObject members) →
  PyDict.get_default members package_name (JArray []) = entry →
  py_iter characters entry = inr (JString <$> names) →
  (py_bool float_is_zero entry = false → names = []) →
  lookup file_path package_name = Ok (named_keys (wildcard_dict names)).
Proof.
  intros Hload Hentry Hiter Hfalsy.
  unfold get_fixture_dependencies, fixture_dependencies.
  rewrite Hload, Hentry.
  destruct (py_bool float_is_zero entry).
  - rewrite Hiter. change (@nil (json * string)) with (named_keys []).
    by rewrite comprehension_names.
  - by rewrite (Hfalsy eq_refl).
Qed.

End FixtureFacts.


(** ** Packages left out of the load order *)

Lemma elem_of_pending_inv done g v :
  v ∈ pending done g → ∃ u ver, has_edge g u v ver ∧ u ∉ done.
Proof.
  unfold pending. rewrite list_elem_of_bind. intros ([u deps] & Hv & Hg).
  destruct (decide (u ∈ done)) as [|Hu]; [by apply elem_of_nil in Hv|].
  apply list_elem_of_fmap in Hv as ([v' ver] & -> & Hv).
  exists u, ver. split; [by exists deps|done].
Qed.

(** A package left out of the order waits for a package that is left out
    as well. *)
Lemma kahn_omitted_pred ord st v :
  PyDict.wf (dependency_graph st) →
  v ∈ all_packages st ∨ v ∈ targets (dependency_graph st) →
  v ∉ (kahn ord st).2 →
  ∃ u ver, has_edge (dependency_graph st) u v ver ∧ u ∉ (kahn ord st).2.
Proof.
  intros Hwf Hv Hout.
  destruct (kahn_spec ord st Hwf) as [_ [Hcount _ _ _ Hcomplete _]].
  apply elem_of_pending_inv. apply dec_stable. intros Hnot.
  apply Hout, Hcomplete.
  - destruct Hv as [Hv|Hv]; [left; by apply elem_of_set_iter|by right].
  - rewrite Hcount. by apply occ_zero.
Qed.

Lemma chain_end g root d x : chain g root d x → x = root ∨ x ∈ targets g.
Proof.
  destruct 1 as [|d u v ver _ Hedge]; [by left|].
  right. apply elem_of_targets. eauto.
Qed.

(** In a built graph every package but the start package is an edge
    target. *)
Lemma built_package_reached registry files args start x :
  let st := build_dependency_graph_bfs registry files args start 0 [] init in
  x ∈ all_packages st → x = start ∨ x ∈ targets (dependency_graph st).
Proof.
  intros st Hx.
  pose proof (run_closed registry files args start x) as Hc.
  cbv zeta in Hc. fold st in Hc.
  destruct (proj1 Hc (or_intror Hx)) as [?|(u & v & ver & Hedge & [->| ->])];
    [by left| |].
  - destruct (run_bounded registry files args start u v ver Hedge)
      as [_ (d & _ & Hchain)].
    by eapply chain_end.
  - right. apply elem_of_targets. eauto.
Qed.

Lemma drain_order_prefix fuel g in_degree queue order :
  ∃ rest, (drain fuel g in_degree queue order).2 = order ++ rest.
Proof.
  revert in_degree queue order.
  induction fuel as [|fuel IH]; intros in_degree queue order.
  - exists []. by rewrite (right_id_L [] (++)).
  - destruct queue as [|current queue].
    + exists []. by rewrite (right_id_L [] (++)).
    + cbn [drain].
      destruct (visit_neighbors _ in_degree queue) as [in_degree' queue'].
      destruct (IH in_degree' queue' (order ++ [current])) as [rest Hrest].
      exists (current :: rest). rewrite Hrest, <- (assoc_L (++)). done.
Qed.

Lemma all_equal_lists (a : string) (l l' : list string) :
  NoDup l → NoDup l' →
  (∀ x, x ∈ l → x = a) → (∀ x, x ∈ l' → x = a) →
  (a ∈ l ↔ a ∈ l') → l = l'.
Proof.
  assert (Hshape : ∀ k : list string,
    NoDup k → (∀ x, x ∈ k → x = a) → k = [] ∨ k = [a]).
  { intros [|x [|y k]] Hnd Hk; [by left| |].
    - right. f_equal. apply Hk. left.
    - exfalso. apply NoDup_cons in Hnd as [Hx _]. apply Hx.
      rewrite (Hk x) by left. rewrite (Hk y) by (right; left). left. }
  intros Hl Hl' Ha Ha' Hiff.
  destruct (Hshape l Hl Ha) as [->| ->], (Hshape l' Hl' Ha') as [->| ->];
    try done.
  - exfalso. eapply not_elem_of_nil. apply Hiff. left.
  - exfalso. eapply not_elem_of_nil. apply Hiff. left.
Qed.

(** The packages [calculate_load_order] starts from, for a built graph. *)
Lemma built_initial_queue registry files args ord start :
  let st := build_dependency_graph_bfs registry files args start 0 [] init in
  let queue := filter (λ node, occ node (targets (dependency_graph st)) = 0)
                 (set_iter ord (all_packages st)) in
  NoDup queue ∧ (∀ x, x ∈ queue → x = start) ∧
  (start ∈ queue ↔
   start ∈ all_packages st ∧ start ∉ targets (dependency_graph st)).
Proof.
  intros st queue. split_and!.
  - apply NoDup_filter, set_iter_NoDup.
  - intros x [H0 Hx]%list_elem_of_filter. apply elem_of_set_iter in Hx.
    destruct (built_package_reached registry files args start x Hx) as [?|Ht];
      [done|].
    by apply occ_zero in H0.
  - unfold queue. rewrite list_elem_of_filter, elem_of_set_iter, occ_zero. tauto.
Qed.

(** ** The size of the Graphviz description *)

Lemma length_filter_ne (a : string) (l : list string) :
  NoDup l → a ∈ l → S (length (filter (λ x, x ≠ a) l)) = length l.
Proof.
  induction l as [|x l IH]; intros Hnd Hin; [by apply elem_of_nil in Hin|].
  apply NoDup_cons in Hnd as [Hx Hnd]. rewrite filter_cons.
  destruct (decide (x ≠ a)) as [Hne|Heq].
  - simpl. f_equal. apply IH; [done|].
    apply elem_of_cons in Hin as [->|?]; done.
  - apply dec_stable in Heq as ->. simpl. f_equal.
    clear IH Hin Hnd. induction l as [|y l IH]; [done|].
    apply not_elem_of_cons in Hx as [Hne Hx].
    rewrite filter_cons_True by done. simpl. f_equal. by apply IH.
Qed.

(** ** What the tree renderer prints and when it returns *)

Lemma printed_more_refl st : printed_more st st.
Proof. by split_and!. Qed.

Lemma printed_more_trans st1 st2 st3 :
  printed_more st1 st2 → printed_more st2 st3 → printed_more st1 st3.
Proof.
  intros (? & ? & ? & ? & ?) (? & ? & ? & ? & ?).
  split_and!; try congruence. by etrans.
Qed.

Lemma printed_more_print line st : printed_more st (print line st).
Proof. split_and!; try done. simpl. by apply prefix_app_r. Qed.

Lemma print_children_more render count i rest st st' :
  (∀ dep b s s', render dep b s = Some s' → printed_more s s') →
  print_children render count i rest st = Some st' → printed_more st st'.
Proof.
  intros Hrender. revert i st.
  induction rest as [|[dep ver] rest IH]; intros i st; cbn [print_children].
  - intros [= ->]. apply printed_more_refl.
  - cbv zeta. destruct (render dep _ st) as [s|] eqn:Hs; [|done].
    intros H. eapply printed_more_trans; [by eapply Hrender|by eapply IH].
Qed.

Lemma print_ascii_tree_more fuel start current prefix is_last st st' :
  print_ascii_tree fuel start current prefix is_last st = Some st' →
  printed_more st st'.
Proof.
  revert current prefix is_last st st'.
  induction fuel as [|fuel IH]; intros current prefix is_last st st'; [done|].
  cbn [print_ascii_tree].
  assert (Hbody : ∀ node s,
    match PyDict.get_default (dependency_graph
            (print (prefix +:+ (if is_last then "└── " else "├── ") +:+ node) s))
            node [] with
    | [] => Some (print (prefix +:+ (if is_last then "└── " else "├── ") +:+ node) s)
    | _ :: _ =>
        print_children
          (λ dep b s2, print_ascii_tree fuel start (Some dep)
             (prefix +:+ (if is_last then "    " else "│   ")) b s2)
          (length (PyDict.get_default (dependency_graph
             (print (prefix +:+ (if is_last then "└── " else "├── ") +:+ node) s))
             node []))
          O (PyDict.get_default (dependency_graph
             (print (prefix +:+ (if is_last then "└── " else "├── ") +:+ node) s))
             node [])
          (print (prefix +:+ (if is_last then "└── " else "├── ") +:+ node) s)
    end = Some st' → printed_more s st').
  { intros node s.
    set (s1 := print (prefix +:+ (if is_last then "└── " else "├── ") +:+ node) s).
    destruct (PyDict.get_default (dependency_graph s1) node []) as [|e deps].
    - intros [= <-]. apply printed_more_print.
    - intros H. eapply printed_more_trans; [apply printed_more_print|].
      eapply print_children_more; [|exact H]. intros dep b s2 s2'. apply IH. }
  destruct current as [node|]; cbv zeta beta iota.
  - apply Hbody.
  - intros H. apply Hbody in H.
    eapply printed_more_trans; [|exact H].
    eapply printed_more_trans; apply printed_more_print.
Qed.

Lemma chain_cons g x c ver n y :
  has_edge g x c ver → chain g c n y → chain g x (S n) y.
Proof.
  intros Hedge Hc. induction Hc as [|d u v ver' _ IH Hstep].
  - econstructor; [constructor|done].
  - econstructor; [exact IH|done].
Qed.

Lemma chain_uncons g x n y :
  chain g x (S n) y → ∃ c ver, has_edge g x c ver ∧ chain g c n y.
Proof.
  revert y. induction n as [|n IH]; intros y Hc.
  - inversion Hc as [|d u v ver Hd Hedge]; subst.
    apply chain_zero in Hd as ->. exists y, ver. split; [done|constructor].
  - inversion Hc as [|d u v ver Hd Hedge]; subst.
    destruct (IH u Hd) as (c & ver' & Hfirst & Hrest).
    exists c, ver'. split; [done|]. by econstructor.
Qed.

Lemma print_children_stuck render count i rest st g c ver :
  (∀ dep b s s', render dep b s = Some s' →
     dependency_graph s' = dependency_graph s) →
  (∀ b s, dependency_graph s = g → render c b s = None) →
  dependency_graph st = g → (c, ver) ∈ rest →
  print_children render count i rest st = None.
Proof.
  intros Hframe Hstuck. revert i st.
  induction rest as [|[dep ver'] rest IH]; intros i st Hg Hin;
    [by apply elem_of_nil in Hin|].
  cbn [print_children]. cbv zeta.
  destruct (render dep _ st) as [s|] eqn:Hs; [|done].
  apply elem_of_cons in Hin as [[= <- <-]|Hin].
  - by rewrite Hstuck in Hs.
  - apply IH; [|done]. by rewrite (Hframe _ _ _ _ Hs).
Qed.

Lemma print_children_done render count i rest st g :
  (∀ dep b s s', render dep b s = Some s' →
     dependency_graph s' = dependency_graph s) →
  (∀ c ver b s, (c, ver) ∈ rest → dependency_graph s = g →
     is_Some (render c b s)) →
  dependency_graph st = g →
  is_Some (print_children render count i rest st).
Proof.
  intros Hframe. revert i st.
  induction rest as [|[dep ver] rest IH]; intros i st Hall Hg; [by eexists|].
  cbn [print_children]. cbv zeta.
  destruct (Hall dep ver (bool_decide (Z.of_nat i = Z.of_nat count - 1)) st)
    as [s Hs]; [left|done|].
  rewrite Hs. apply IH.
  - intros c ver' b s' Hin. apply (Hall c ver'). by right.
  - by rewrite (Hframe _ _ _ _ Hs).
Qed.

(** The call for the start package is the call for that node after the two
    header lines. *)
Lemma print_ascii_tree_top fuel start prefix is_last st :
  print_ascii_tree fuel start None prefix is_last st =
  print_ascii_tree fuel start (Some start) prefix is_last
    (print (rule 50)
       (print (nl +:+ "🌳 ASCII-ДЕРЕВО ЗАВИСИМОСТЕЙ ДЛЯ: " +:+ start) st)).
Proof. by destruct fuel. Qed.

Lemma print_ascii_tree_stuck fuel start x prefix is_last st n y :
  PyDict.wf (dependency_graph st) →
  chain (dependency_graph st) x n y → (fuel ≤ n)%nat →
  print_ascii_tree fuel start (Some x) prefix is_last st = None.
Proof.
  revert x prefix is_last st n y.
  induction fuel as [|fuel IH]; intros x prefix is_last st n y Hwf Hc Hn; [done|].
  destruct n as [|n]; [lia|].
  apply chain_uncons in Hc as (c & ver & (deps & Hin & Hv) & Hc).
  cbn [print_ascii_tree]. cbv zeta beta iota.
  set (s1 := print (prefix +:+ (if is_last then "└── " else "├── ") +:+ x) st).
  assert (Hget : PyDict.get_default (dependency_graph s1) x [] = deps).
  { unfold PyDict.get_default. simpl. by rewrite (elem_of_get _ _ _ Hwf Hin). }
  rewrite Hget. destruct deps as [|e deps]; [by apply elem_of_nil in Hv|].
  eapply (print_children_stuck _ _ _ _ _ (dependency_graph st) c ver);
    [| |done|done].
  - intros dep b s s' Hs. by destruct (print_ascii_tree_more _ _ _ _ _ _ _ Hs).
  - intros b s Hs. apply (IH c _ b s n y); [by rewrite Hs|by rewrite Hs|lia].
Qed.

Lemma cyclic_chain (n : nat) :
  ∃ y, chain [("A", [("B", "*")]); ("B", [("A", "*")])] "A" n y.
Proof.
  induction n as [|n [y IH]]; [exists "A"; constructor|].
  assert (Hy : y = "A" ∨ y = "B").
  { apply chain_end in IH as [->|Hy]; [by left|].
    unfold targets in Hy. simpl in Hy.
    apply elem_of_cons in Hy as [->|Hy]; [by right|].
    apply list_elem_of_singleton in Hy as ->. by left. }
  destruct Hy as [-> | ->].
  - exists "B". econstructor; [exact IH|].
    apply (has_edge_edge_list _ "A" "B" "*"). left.
  - exists "A". econstructor; [exact IH|].
    apply (has_edge_edge_list _ "B" "A" "*"). right. left.
Qed.

Lemma print_ascii_tree_shallow n :
  ∀ fuel start x prefix is_last st,
    (∀ y, ¬ chain (dependency_graph st) x n y) → (n ≤ fuel)%nat →
    is_Some (print_ascii_tree fuel start (Some x) prefix is_last st).
Proof.
  induction n as [|n IH]; intros fuel start x prefix is_last st Hno Hn.
  { exfalso. apply (Hno x). constructor. }
  destruct fuel as [|fuel]; [lia|].
  cbn [print_ascii_tree]. cbv zeta beta iota.
  set (s1 := print (prefix +:+ (if is_last then "└── " else "├── ") +:+ x) st).
  destruct (PyDict.get_default (dependency_graph s1) x []) as [|e deps] eqn:Hget;
    [by eexists|].
  apply (print_children_done _ _ _ _ _ (dependency_graph st)); [| |done].
  - intros dep b s s' Hs. by destruct (print_ascii_tree_more _ _ _ _ _ _ _ Hs).
  - intros c ver b s Hin Hs. apply IH; [|lia].
    intros y Hc. apply (Hno y). rewrite Hs in Hc.
    apply (chain_cons _ x c ver); [|done].
    exists (e :: deps). split; [|done]. apply get_Some_elem_of.
    unfold PyDict.get_default in Hget. simpl in Hget.
    by destruct (PyDict.get (dependency_graph st) x) as [d|]; simplify_eq/=.
Qed.

(** The edges of a concrete graph, one case per edge. *)
Ltac edge_cases H :=
  apply has_edge_edge_list in H; simpl in H;
  repeat (apply elem_of_cons in H as [H|H]; [simplify_eq H; intros|]);
  try (by apply elem_of_nil in H).

(** ** Runs of the builder on a used analyzer *)

Lemma get_default_graph_append g pkg e u :
  PyDict.get_default (graph_append g pkg e) u [] =
  if decide (pkg = u) then PyDict.get_default g pkg [] ++ [e]
  else PyDict.get_default g u [].
Proof.
  unfold PyDict.get_default at 1. rewrite get_graph_append.
  by destruct (decide (pkg = u)).
Qed.

Lemma keys_graph_append_eq g pkg e :
  PyDict.keys (graph_append g pkg e) =
  if decide (pkg ∈ PyDict.keys g) then PyDict.keys g else PyDict.keys g ++ [pkg].
Proof. unfold graph_append. apply keys_set. Qed.

Lemma joined_init base : joined base init base.
Proof.
  split_and!; simpl.
  - intros u. change (PyDict.get_default [] u []) with (@nil dep_edge).
    by rewrite (right_id_L [] (++)).
  - by rewrite filter_nil, (right_id_L [] (++)).
  - by rewrite (left_id_L ∅ (∪)).
  - by rewrite orb_false_r.
  - done.
  - by rewrite (right_id_L [] (++)).
Qed.

Lemma joined_add base pkg delta st :
  joined base delta st → joined base (add_package pkg delta) (add_package pkg st).
Proof.
  intros (Hg & Hk & Hp & Hc & Hl & Ho). split_and!; simpl; try done.
  by rewrite Hp, (assoc_L (∪)).
Qed.

Lemma joined_print base line delta st :
  joined base delta st → joined base (print line delta) (print line st).
Proof.
  intros (Hg & Hk & Hp & Hc & Hl & Ho). split_and!; simpl; try done.
  by rewrite Ho, (assoc_L (++)).
Qed.

Lemma joined_cycle base delta st :
  joined base delta st →
  joined base (set_cycle_detected delta) (set_cycle_detected st).
Proof.
  intros (Hg & Hk & Hp & Hc & Hl & Ho). split_and!; simpl; try done.
  by rewrite orb_true_r.
Qed.

Lemma joined_edge base pkg e delta st :
  joined base delta st →
  joined base (record_edge pkg e delta) (record_edge pkg e st).
Proof.
  intros (Hg & Hk & Hp & Hc & Hl & Ho). split_and!; simpl; try done.
  - intros u. rewrite !get_default_graph_append.
    destruct (decide (pkg = u)) as [->|Hne]; [|apply Hg].
    by rewrite Hg, (assoc_L (++)).
  - rewrite !keys_graph_append_eq, Hk.
    destruct (decide (pkg ∈ PyDict.keys (dependency_graph delta))) as [Hd|Hd].
    + rewrite decide_True; [done|].
      destruct (decide (pkg ∈ PyDict.keys (dependency_graph base))) as [Hb|Hb].
      * apply elem_of_app. by left.
      * apply elem_of_app. right. by apply list_elem_of_filter.
    + rewrite filter_app, filter_cons, filter_nil.
      destruct (decide (pkg ∈ PyDict.keys (dependency_graph base))) as [Hb|Hb].
      * rewrite decide_True by (apply elem_of_app; by left).
        rewrite decide_False by (intros H; by apply H).
        by rewrite (right_id_L [] (++)).
      * rewrite decide_False.
        -- rewrite decide_True by done. by rewrite (assoc_L (++)).
        -- intros [?|[_ ?]%list_elem_of_filter]%elem_of_app; done.
Qed.

Lemma build_fuel_joined registry files args base fuel pkg depth path delta st :
  joined base delta st →
  joined base (build_fuel registry files args fuel pkg depth path delta)
              (build_fuel registry files args fuel pkg depth path st).
Proof.
  revert pkg depth path delta st.
  induction fuel as [|fuel IH]; intros pkg depth path delta st Hst;
    rewrite !build_fuel_unfold;
    destruct (decide (depth >= max_depth args)); try done;
    (destruct (decide (pkg ∈ path));
       [by apply joined_cycle, joined_print|]);
    destruct (get_direct_dependencies registry files args pkg) as [deps|e].
  - by apply joined_add.
  - by apply joined_print, joined_add.
  - apply joined_add with (pkg := pkg) in Hst.
    revert Hst. generalize (add_package pkg delta) (add_package pkg st).
    induction deps as [|[dep ver] deps IHd]; intros s s' Hs; [done|].
    rewrite !expand_dependencies_cons.
    by apply IHd, IH, joined_add, joined_edge.
  - by apply joined_print, joined_add.
Qed.

(** ** Facts about registry documents *)

Lemma bind_Return {A B} (m : outcome A) (f : A → outcome B) (b : B) :
  m ≫= f = Return b → ∃ a, m = Return a ∧ f a = Return b.
Proof. destruct m as [a|e]; [by exists a|done]. Qed.

Lemma py_get_Return v key r :
  py_get v key = Return r →
  ∃ members, v = JObject members ∧
    (r = JObject [] ∨ ∃ k, key = JString k ∧ PyDict.get members k = Some r).
Proof.
  destruct v as [| | | | | |members]; try done. intros H. exists members.
  split; [done|]. destruct key as [| | | |k| |]; simpl in H; try done;
    try (left; congruence).
  unfold PyDict.get_default in H.
  destruct (PyDict.get members k) as [x|] eqn:Hk; simpl in H.
  - right. exists k. split; [done|]. congruence.
  - left. congruence.
Qed.

Lemma py_getitem_Return v key r :
  py_getitem v key = Return r →
  ∃ members, v = JObject members ∧ PyDict.get members key = Some r.
Proof.
  destruct v as [| | | | | |members]; try done. simpl.
  destruct (PyDict.get members key) as [x|] eqn:Hx; [|done].
  intros [= ->]. by exists members.
Qed.

Lemma py_in_object key d :
  py_in key (JObject d) = Return (bool_decide (PyDict.get d key ≠ None)).
Proof.
  simpl. f_equal. apply bool_decide_ext. rewrite get_None.
  split; [tauto|]. intros H. by destruct (decide (key ∈ PyDict.keys d)).
Qed.

Lemma get_last_key {V} (d : list (string * V)) k x :
  PyDict.wf d → last d = Some (k, x) →
  last (PyDict.keys d) = Some k ∧ PyDict.get d k = Some x.
Proof.
  intros Hwf Hlast. split.
  - unfold PyDict.keys. by rewrite fmap_last, Hlast.
  - apply elem_of_get; [done|]. by apply last_Some_elem_of.
Qed.

(** ** Facts about the run *)

Lemma build_fuel_printed_first registry files args pre fuel pkg depth path st st' :
  printed_first pre st st' →
  printed_first pre (build_fuel registry files args fuel pkg depth path st)
                    (build_fuel registry files args fuel pkg depth path st').
Proof.
  assert (Hprint : ∀ line s s',
    printed_first pre s s' → printed_first pre (print line s) (print line s')).
  { intros line s s' [(Hg & Hc & Hl & Hp) Ho].
    split; [split_and!; simpl; congruence|]. simpl.
    by rewrite Ho, (assoc_L (++)). }
  assert (Hadd : ∀ p s s',
    printed_first pre s s' → printed_first pre (add_package p s) (add_package p s')).
  { intros p s s' [Hs Ho]. split; [by apply same_analysis_add|done]. }
  assert (Hedge : ∀ p e s s',
    printed_first pre s s' → printed_first pre (record_edge p e s) (record_edge p e s')).
  { intros p e s s' [Hs Ho]. split; [by apply same_analysis_edge|done]. }
  assert (Hcycle : ∀ s s',
    printed_first pre s s' →
    printed_first pre (set_cycle_detected s) (set_cycle_detected s')).
  { intros s s' [Hs Ho]. split; [by apply same_analysis_cycle|done]. }
  revert pkg depth path st st'.
  induction fuel as [|fuel IH]; intros pkg depth path st st' Hst;
    rewrite !build_fuel_unfold;
    destruct (decide (depth >= max_depth args)); try done;
    (destruct (decide (pkg ∈ path)); [by apply Hcycle, Hprint|]);
    destruct (get_direct_dependencies registry files args pkg) as [deps|e].
  - by apply Hadd.
  - by apply Hprint, Hadd.
  - apply Hadd with (p := pkg) in Hst.
    revert Hst. generalize (add_package pkg st) (add_package pkg st').
    induction deps as [|[dep ver] deps IHd]; intros s s' Hs; [done|].
    rewrite !expand_dependencies_cons.
    by apply IHd, IH, Hadd, Hedge.
  - by apply Hprint, Hadd.
Qed.

Lemma same_analysis_init st :
  dependency_graph st = [] → cycle_detected st = false →
  load_order st = [] → all_packages st = ∅ →
  printed_first (stdout st) init st.
Proof.
  intros Hg Hc Hl Hp. split; [by split_and!|].
  simpl. by rewrite (right_id_L [] (++)).
Qed.

Lemma stdout_fold_print {A} (f : A → string) lines st :
  let st' := fold_left (λ st line, print (f line) st) lines st in
  same_analysis st st' ∧ stdout st' = stdout st ++ (f <$> lines).
Proof.
  revert st. induction lines as [|line lines IH]; intros st; simpl.
  - split; [by split_and!|]. by rewrite (right_id_L [] (++)).
  - destruct (IH (print (f line) st)) as [(Hg & Hc & Hl & Hp) Ho].
    split; [by split_and!|]. rewrite Ho. simpl.
    by rewrite <- (assoc_L (++)).
Qed.

Lemma print_configuration_prints args st :
  same_analysis st (print_configuration args st) ∧
  stdout (print_configuration args st)
  = stdout st ++ stdout (print_configuration args init).
Proof.
  split; [by split_and!|]. unfold print_configuration. simpl.
  by rewrite <- !(assoc_L (++)).
Qed.

Lemma kahn_same ord st st' :
  same_analysis st st' → kahn ord st = kahn ord st'.
Proof. intros (Hg & _ & _ & Hp). unfold kahn. by rewrite Hg, Hp. Qed.

Lemma and_then_Returned {file_system} (first : option (ended file_system))
    rest w' :
  and_then first rest = Some (Returned w') →
  ∃ w, first = Some (Returned w) ∧ rest w = Some (Returned w').
Proof. destruct first as [[w| |]|]; try done. intros H. by exists w. Qed.

Lemma same_analysis_trans st1 st2 st3 :
  same_analysis st1 st2 → same_analysis st2 st3 → same_analysis st1 st3.
Proof.
  intros (? & ? & ? & ?) (? & ? & ? & ?). split_and!; congruence.
Qed.

Lemma printed_more_same st st' : printed_more st st' → same_analysis st st'.
Proof. intros (? & ? & ? & ? & _). by split_and!. Qed.

Lemma validate_arguments_one_source path_exists args :
  (validate_arguments path_exists args).1 = [] →
  truthy (Cli.package args) ≠ truthy (Cli.test_repo args).
Proof.
  unfold validate_arguments.
  destruct (truthy (Cli.package args)), (truthy (Cli.test_repo args));
    cbn [negb andb]; try done;
    repeat match goal with
           | |- context [decide ?P] => destruct (decide P)
           | |- context [if ?b then _ else _] => destruct b
           end; done.
Qed.

Lemma build_keeps_load_order registry files args pkg depth path st :
  load_order (build_dependency_graph_bfs registry files args pkg depth path st)
  = load_order st.
Proof.
  unfold build_dependency_graph_bfs.
  apply (build_fuel_rel registry files args
           (λ s s', load_order s' = load_order s)); try done.
  intros s1 s2 s3 H1 H2. congruence.
Qed.

Section Demonstration.

Variable registry : string → string → result (list dep_edge).
Variable file_system : Type.
Variable read_json : file_system → string → result (list (string * list string)).
Variable write_file : string → string → file_system → option string * file_system.
Variable ord : SetOrder.

(** One demonstration leaves the analysis of its package from a new
    analyzer, whatever the analyzer held. *)
Lemma demonstrate_case_analysis fuel args i package (w w' : world file_system) :
  demonstrate_case registry read_json write_file ord fuel args i package w
  = Some (Returned w') →
  same_analysis
    (build_dependency_graph_bfs registry (read_json (disk w)) (core_args args)
       package 0 [] init)
    (self w') ∧
  (Cli.graphviz args && truthy (Cli.output args) = false → disk w' = disk w).
Proof.
  unfold demonstrate_case, update. cbn [self disk].
  set (st0 := clear _).
  assert (H0 : printed_first (stdout st0) init st0)
    by by apply same_analysis_init.
  apply (build_fuel_printed_first registry (read_json (disk w)) (core_args args)
           _ (Z.to_nat (max_depth (core_args args) - 0)) package 0 [])
    in H0 as [Hbuilt _].
  fold (build_dependency_graph_bfs registry (read_json (disk w)) (core_args args)
          package 0 [] init) in Hbuilt.
  fold (build_dependency_graph_bfs registry (read_json (disk w)) (core_args args)
          package 0 [] st0) in Hbuilt.
  intros (w1 & Htree & Hrest)%and_then_Returned.
  assert (H1 : same_analysis
                 (build_dependency_graph_bfs registry (read_json (disk w))
                    (core_args args) package 0 [] init) (self w1)
               ∧ disk w1 = disk w).
  { destruct (Cli.ascii_tree args).
    - unfold show_tree in Htree. cbn [self disk] in Htree.
      destruct (print_ascii_tree _ _ _ _ _ _) as [st|] eqn:Hst; [|done].
      injection Htree as <-. cbn [self disk]. split; [|done].
      eapply same_analysis_trans; [exact Hbuilt|].
      by eapply printed_more_same, print_ascii_tree_more.
    - injection Htree as <-. by cbn [self disk]. }
  destruct H1 as [Hs1 Hd1].
  destruct (Cli.graphviz args); cbn [andb].
  - destruct (truthy (Cli.output args)).
    + unfold save in Hrest. cbn [update self disk] in Hrest.
      destruct (write_file _ _ _) as [[msg|] files]; [done|].
      injection Hrest as <-. cbn [self disk]. split; [|done].
      eapply same_analysis_trans; [exact Hs1|]. by split_and!.
    + injection Hrest as <-. cbn [update self disk]. split; [|done].
      eapply same_analysis_trans; [exact Hs1|]. by split_and!.
  - injection Hrest as <-. by split.
Qed.

Lemma demonstrate_visualization_cases_analysis fuel args (w w' : world file_system) :
  demonstrate_visualization_cases registry read_json write_file ord fuel args w
  = Some (Returned w') →
  ∃ files,
    same_analysis
      (build_dependency_graph_bfs registry (read_json files) (core_args args)
         "E" 0 [] init)
      (self w') ∧
    (Cli.graphviz args && truthy (Cli.output args) = false →
     files = disk w ∧ disk w' = disk w).
Proof.
  unfold demonstrate_visualization_cases. cbn [demonstrate_cases].
  intros (w1 & H1 & (w2 & H2 & (w3 & H3 & [= <-])%and_then_Returned)
            %and_then_Returned)%and_then_Returned.
  apply demonstrate_case_analysis in H1 as [_ Hd1].
  apply demonstrate_case_analysis in H2 as [_ Hd2].
  apply demonstrate_case_analysis in H3 as [Hs3 Hd3].
  exists (disk w2). split; [done|]. intros Hno.
  cbn [update disk] in Hd1. rewrite (Hd3 Hno), (Hd2 Hno), (Hd1 Hno). done.
Qed.

End Demonstration.

(** ** Cycles and the load order *)

Lemma path_cons g x y l :
  path g (x :: y :: l) ↔ (∃ ver, has_edge g x y ver) ∧ path g (y :: l).
Proof. done. Qed.

Lemma path_app_r g l1 l2 : path g (l1 ++ l2) → path g l2.
Proof.
  induction l1 as [|x l1 IH]; [done|]. intros H. apply IH.
  destruct l1 as [|y l1]; simpl in *.
  - by destruct l2 as [|? []]; [| |destruct H].
  - by destruct H.
Qed.

Lemma path_app_l g l1 l2 : path g (l1 ++ l2) → path g l1.
Proof.
  induction l1 as [|x l1 IH]; [done|]. destruct l1 as [|y l1]; [done|].
  rewrite <- !app_comm_cons, !path_cons. intros [He H]. split; [done|].
  apply IH. by rewrite <- app_comm_cons.
Qed.

(** A path is a chain from its first to its last entry. *)
Lemma path_chain g x l y :
  path g (x :: l) → last (x :: l) = Some y → chain g x (length l) y.
Proof.
  revert x. induction l as [|c l IH]; intros x Hp Hl.
  - injection Hl as <-. constructor.
  - apply path_cons in Hp as [[ver He] Hp]. rewrite last_cons_cons in Hl.
    simpl. apply (chain_cons g x c ver); [done|]. by apply IH.
Qed.

(** A list with more entries than the list that holds them all has an
    entry twice. *)
Lemma repeated_entry (l k : list string) :
  (∀ x, x ∈ l → x ∈ k) → (length k < length l)%nat →
  ∃ l1 x l2 l3, l = l1 ++ x :: l2 ++ x :: l3.
Proof.
  intros Hsub Hlen.
  assert (Hdup : ¬ NoDup l).
  { intros Hnd. apply (NoDup_submseteq _ k) in Hnd; [|done].
    apply submseteq_length in Hnd. lia. }
  clear Hsub Hlen. induction l as [|a l IH].
  - destruct Hdup. constructor.
  - destruct (decide (a ∈ l)) as [Hin|Hout].
    + apply list_elem_of_split in Hin as (l2 & l3 & ->). by exists [], a, l2, l3.
    + destruct IH as (l1 & x & l2 & l3 & ->).
      { intros Hnd. apply Hdup. by apply NoDup_cons. }
      by exists (a :: l1), x, l2, l3.
Qed.

(** A path longer than the list that holds its entries runs through a
    cycle. *)
Lemma long_path_cycle g (l k : list string) :
  path g l → (∀ x, x ∈ l → x ∈ k) → (length k < length l)%nat →
  ∃ x n, chain g x (S n) x.
Proof.
  intros Hp Hsub Hlen.
  destruct (repeated_entry l k Hsub Hlen) as (l1 & x & l2 & l3 & ->).
  exists x, (length l2).
  apply path_app_r in Hp.
  replace (x :: l2 ++ x :: l3) with ((x :: l2 ++ [x]) ++ l3) in Hp
    by (by rewrite <- app_comm_cons, <- (assoc_L (++))).
  apply path_app_l in Hp.
  replace (S (length l2)) with (length (l2 ++ [x]))
    by (rewrite length_app; simpl; lia).
  apply path_chain; [done|]. by rewrite app_comm_cons, last_snoc.
Qed.

(** In a built graph every edge starts at a known package. *)
Lemma built_sources_known registry files args start u v ver :
  let st := build_dependency_graph_bfs registry files args start 0 [] init in
  has_edge (dependency_graph st) u v ver → u ∈ all_packages st.
Proof.
  intros st Hedge.
  destruct (decide (0 >= max_depth args)) as [Hd|Hd].
  { subst st. rewrite run_depth_reached in Hedge by done.
    destruct Hedge as (deps & Hin & _). by apply elem_of_nil in Hin. }
  pose proof (run_closed registry files args start u) as Hc.
  cbv zeta in Hc. fold st in Hc.
  assert (Hor : u = start ∨ u ∈ all_packages st).
  { apply Hc. right. exists u, v, ver. split; [done|by left]. }
  destruct Hor as [->|Hu]; [|done].
  apply run_start_known; [lia|apply not_elem_of_nil].
Qed.

(** A graph whose edges all lead to a higher rank has no cycle. *)
Lemma ranked_acyclic g (rank : string → nat) :
  (∀ u v ver, has_edge g u v ver → (rank u < rank v)%nat) → acyclic g.
Proof.
  intros Hrank.
  assert (Hc : ∀ a n b, chain g a n b → (rank a + n ≤ rank b)%nat).
  { intros a n b Hc. induction Hc as [|d u v ver _ IH He]; [lia|].
    specialize (Hrank u v ver He). lia. }
  intros x n Hx. specialize (Hc _ _ _ Hx). lia.
Qed.

Section KahnCycles.
Variable ord : SetOrder.
Variable st : analyzer.
Hypothesis Hwf : PyDict.wf (dependency_graph st).

Local Abbreviation g := (dependency_graph st).

(** Whatever a chain of one edge or more leads from stands earlier in the
    order than the package it leads to. *)
Lemma kahn_chain_earlier a n v l1 l2 :
  (kahn ord st).2 = l1 ++ v :: l2 → chain g a (S n) v → a ∈ l1.
Proof.
  destruct (kahn_spec ord st Hwf) as [_ Hinv].
  revert v l1 l2. induction n as [|n IH]; intros v l1 l2 Hsplit Hc;
    inversion Hc as [|d u v' ver Hc' He]; subst.
  - apply chain_zero in Hc' as ->. by apply (inv_before _ _ _ _ _ Hinv l1 v l2 Hsplit a ver).
  - pose proof (inv_before _ _ _ _ _ Hinv l1 v l2 Hsplit u ver He) as Hu.
    apply list_elem_of_split in Hu as (l1' & l1'' & ->).
    apply elem_of_app. left.
    apply (IH u l1' (l1'' ++ v :: l2)); [|done].
    by rewrite Hsplit, <- (assoc_L (++)).
Qed.

(** A package on a cycle is left out of the order. *)
Lemma kahn_cycle_omitted x n : chain g x (S n) x → x ∉ (kahn ord st).2.
Proof.
  intros Hc Hin. apply list_elem_of_split in Hin as (l1 & l2 & Hsplit).
  pose proof (kahn_chain_earlier x n x l1 l2 Hsplit Hc) as Hx.
  pose proof (kahn_NoDup ord st Hwf) as Hnd. rewrite Hsplit in Hnd.
  apply NoDup_app in Hnd as (_ & Hnd & _). apply (Hnd x Hx). left.
Qed.

Hypothesis Hsources : ∀ u v ver, has_edge g u v ver → u ∈ all_packages st.

(** From a package that is left out, paths of every length lead backwards
    through packages that are left out. *)
Lemma kahn_omitted_path v n :
  v ∈ all_packages st ∨ v ∈ targets g → v ∉ (kahn ord st).2 →
  ∃ u l, length l = n ∧ path g (u :: l) ∧ (u ∉ (kahn ord st).2) ∧
         (u ∈ all_packages st ∨ u ∈ targets g) ∧
         ∀ x, x ∈ u :: l → x ∈ v :: PyDict.keys g.
Proof.
  intros Hv Hout.
  induction n as [|n (u & l & Hlen & Hp & Hu & Hknown & Hin)].
  - exists v, []. split_and!; try done.
    intros x ->%list_elem_of_singleton. left.
  - destruct (kahn_omitted_pred ord st u Hwf Hknown Hu) as (u' & ver & He & Hu').
    exists u', (u :: l). split_and!.
    + simpl. by rewrite Hlen.
    + apply path_cons. split; [by exists ver|done].
    + done.
    + left. by apply (Hsources u' u ver).
    + intros x [->|Hx]%elem_of_cons; [|by apply Hin].
      right. destruct He as (deps & Hdeps & _).
      apply list_elem_of_fmap. by exists (u', deps).
Qed.

(** Without a cycle every known package and every edge target is
    ordered. *)
Lemma kahn_complete v :
  acyclic g → v ∈ all_packages st ∨ v ∈ targets g → v ∈ (kahn ord st).2.
Proof.
  intros Hacyclic Hv. apply dec_stable. intros Hout.
  destruct (kahn_omitted_path v (S (length (PyDict.keys g))) Hv Hout)
    as (u & l & Hlen & Hp & _ & _ & Hin).
  destruct (long_path_cycle g (u :: l) (v :: PyDict.keys g) Hp Hin)
    as (x & n & Hc); [simpl; lia|].
  by apply (Hacyclic x n).
Qed.

End KahnCycles.

(** * The properties of the specification *)

(** C1 (as amended). The call that detects a cycle records no edge, but the
    edge that closes the cycle is in the graph all the same: the caller
    appends every dependency of an expanded package before it recurses into
    it, also when the dependency is on the current path. On the fixture
    [{A: [B], B: [A]}] with [max_depth = 5] the built graph holds exactly
    the edges [A -> B] and [B -> A], and the cycle flag is set. *)
Theorem cycle_edge_recorded registry files args :
  (∀ pkg depth path st deps v ver,
     depth < max_depth args → pkg ∉ path →
     get_direct_dependencies registry files args pkg = Ok deps →
     (v, ver) ∈ deps →
     has_edge
       (dependency_graph
          (build_dependency_graph_bfs registry files args pkg depth path st))
       pkg v ver) ∧
  (∀ pkg depth path st,
     pkg ∈ path →
     dependency_graph
       (build_dependency_graph_bfs registry files args pkg depth path st)
     = dependency_graph st) ∧
  (let st := build_fixture cyclic_fixture 5 "A" in
   dependency_graph st = [("A", [("B", "*")]); ("B", [("A", "*")])] ∧
   cycle_detected st = true).
Proof.
  split_and!.
  - intros pkg depth path st deps v ver Hd Hpath Hdeps Hin.
    rewrite (run_expand _ _ _ _ _ _ _ deps Hd Hpath Hdeps).
    by apply expand_dependencies_records.
  - intros pkg depth path st Hin.
    destruct (decide (depth >= max_depth args)) as [Hd|Hd].
    + by rewrite run_depth_reached.
    + rewrite run_cycle; [done|lia|done].
  - vm_compute. done.
Qed.

Lemma cycle_edge_recorded_witness :
  let st := build_dependency_graph_bfs two_cycle_registry (fixture_files [])
              (registry_args 3) "B" 1 ["A"] init in
  1 < 3 ∧ ("B" ∉ ["A"]) ∧ ("A", "~2.1.0") ∈ [("A", "~2.1.0")] ∧
  "A" ∈ ["A"] ++ ["B"] ∧
  has_edge (dependency_graph st) "B" "A" "~2.1.0".
Proof.
  assert (H1 : 1 < max_depth (registry_args 3)) by (simpl; lia).
  assert (H2 : "B" ∉ ["A"]) by (by intros [= ]%list_elem_of_singleton).
  assert (H3 : ("A", "~2.1.0") ∈ [("A", "~2.1.0")]) by left.
  split_and!; [lia|exact H2|exact H3|left|].
  exact (proj1 (cycle_edge_recorded two_cycle_registry (fixture_files [])
                  (registry_args 3))
           "B" 1 ["A"] init [("A", "~2.1.0")] "A" "~2.1.0" H1 H2 eq_refl H3).
Defined.

(** C1, the claim as stated fails: on the fixture [{A: [B], B: [A]}] with
    [max_depth = 5] the cycle is detected and the graph holds the closing
    edge [B -> A]. *)
Lemma cycle_closing_edge_stored :
  let st := build_fixture cyclic_fixture 5 "A" in
  cycle_detected st = true ∧
  stdout st = ["⚠️  Обнаружена циклическая зависимость: A -> B -> A"] ∧
  has_edge (dependency_graph st) "B" "A" "*" ∧
  ¬ (∀ u v ver, has_edge (dependency_graph st) u v ver → u = "A" ∧ v = "B").
Proof.
  assert (Hedge : has_edge (dependency_graph (build_fixture cyclic_fixture 5 "A"))
                    "B" "A" "*").
  { apply has_edge_edge_list. vm_compute. right. left. }
  split_and!; [vm_compute; reflexivity|vm_compute; reflexivity|exact Hedge|].
  intros H. destruct (H _ _ _ Hedge) as [[=] _].
Qed.

(** C2 (as amended). Take a graph that is well formed as a dictionary and
    whose edge sources are known packages; every graph built from a fresh
    analyzer is one (second part). The loop of [calculate_load_order] ends
    with an empty queue, and the call prints nothing and leaves the cycle
    flag as it was. If the graph has no cycle, the returned sequence holds
    every known package and every edge target and is a topological order:
    for every edge [u -> v], [u] stands before [v]. If the graph has a
    cycle, nothing is reported: the packages on a cycle are missing from the
    returned sequence and keep a nonzero in-degree. In any case the returned
    part is ordered, every edge into a returned package coming from an
    earlier one, and among the known packages and the edge targets those
    left with a nonzero in-degree are exactly those missing from the
    returned sequence. *)
Theorem load_order_topological :
  (∀ ord st start_package,
     PyDict.wf (dependency_graph st) →
     (∀ u v ver, has_edge (dependency_graph st) u v ver → u ∈ all_packages st) →
     let result := calculate_load_order ord st start_package in
     (kahn ord st).1.2 = [] ∧
     stdout result.1 = stdout st ∧
     cycle_detected result.1 = cycle_detected st ∧
     (acyclic (dependency_graph st) →
      (∀ v, v ∈ all_packages st ∨ v ∈ targets (dependency_graph st) →
            v ∈ result.2) ∧
      (∀ u v ver, has_edge (dependency_graph st) u v ver →
                  before u v result.2)) ∧
     (∀ x n, chain (dependency_graph st) x (S n) x →
             (x ∉ result.2) ∧ residual_in_degree ord st x ≠ 0) ∧
     (∀ u v ver, has_edge (dependency_graph st) u v ver → v ∈ result.2 →
                 before u v result.2) ∧
     (∀ v, v ∈ all_packages st ∨ v ∈ targets (dependency_graph st) →
           residual_in_degree ord st v ≠ 0 ↔ v ∉ result.2)) ∧
  (∀ registry files args start,
     let st := build_dependency_graph_bfs registry files args start 0 [] init in
     PyDict.wf (dependency_graph st) ∧
     (∀ u v ver, has_edge (dependency_graph st) u v ver → u ∈ all_packages st)).
Proof.
  split.
  - intros ord st start_package Hwf Hsources result. subst result.
    cbn [calculate_load_order fst snd]. split_and!.
    + by destruct (kahn_spec ord st Hwf).
    + done.
    + done.
    + intros Hacyclic.
      assert (Hall : ∀ v,
                v ∈ all_packages st ∨ v ∈ targets (dependency_graph st) →
                v ∈ (kahn ord st).2)
        by (intros v; by apply kahn_complete).
      split; [exact Hall|]. intros u v ver Hedge.
      apply (kahn_before ord st u v ver Hwf Hedge), Hall.
      right. apply elem_of_targets. eauto.
    + intros x n Hc.
      pose proof (kahn_cycle_omitted ord st Hwf x n Hc) as Hout.
      split; [done|]. intros Hzero. apply Hout.
      apply kahn_residual; [done| |done].
      right. inversion Hc as [|d u v ver _ He]; subst.
      apply elem_of_targets. eauto.
    + intros u v ver Hedge Hv. by apply (kahn_before ord st u v ver).
    + intros v Hv. by rewrite (kahn_residual ord st v Hwf Hv).
  - intros registry files args start st. split.
    + by destruct (build_state_ok registry files args start 0 []).
    + apply built_sources_known.
Qed.

Lemma load_order_topological_witness :
  let st := build_fixture diamond_fixture 3 "A" in
  let order := (calculate_load_order elements_order st "A").2 in
  PyDict.wf (dependency_graph st) ∧
  (∀ u v ver, has_edge (dependency_graph st) u v ver → u ∈ all_packages st) ∧
  acyclic (dependency_graph st) ∧
  "A" ∈ order ∧ "B" ∈ order ∧ "C" ∈ order ∧
  before "A" "B" order ∧ before "A" "C" order ∧ before "C" "B" order.
Proof.
  intros st order.
  destruct load_order_topological as [Hresolver Hbuilt].
  destruct (Hbuilt no_registry (fixture_files diamond_fixture) (fixture_args 3)
              "A") as [Hwf Hsources].
  fold (build_fixture diamond_fixture 3 "A") in Hwf, Hsources.
  fold st in Hwf, Hsources.
  assert (Hacyclic : acyclic (dependency_graph st)).
  { apply (ranked_acyclic _ diamond_rank). intros u v ver Hedge.
    apply has_edge_edge_list in Hedge. vm_compute in Hedge.
    repeat (apply elem_of_cons in Hedge as [[= -> -> ->]|Hedge];
            [vm_compute; lia|]).
    by apply elem_of_nil in Hedge. }
  destruct (Hresolver elements_order st "A" Hwf Hsources)
    as (_ & _ & _ & Htopo & _).
  destruct (Htopo Hacyclic) as [Hall Hbefore].
  split_and!; [exact Hwf|exact Hsources|exact Hacyclic|..].
  - apply Hall. left. vm_compute. set_solver.
  - apply Hall. right. vm_compute. left.
  - apply Hall. right. vm_compute. right. left.
  - apply (Hbefore "A" "B" "*"). apply has_edge_edge_list. vm_compute. left.
  - apply (Hbefore "A" "C" "*"). apply has_edge_edge_list. vm_compute.
    right. left.
  - apply (Hbefore "C" "B" "*"). apply has_edge_edge_list. vm_compute.
    right. right. left.
Defined.

(** C2, the claim as stated fails: on the graph built from the cyclic
    fixture both packages keep the in-degree 1, and the resolver returns
    the empty sequence and prints nothing. *)
Lemma load_order_reports_nothing :
  let st := build_fixture cyclic_fixture 5 "A" in
  let result := calculate_load_order elements_order st "A" in
  residual_in_degree elements_order st "A" = 1 ∧
  residual_in_degree elements_order st "B" = 1 ∧
  result.2 = [] ∧
  stdout result.1 = stdout st.
Proof. vm_compute. done. Qed.

(** C3, the behaviour of the code: [version_info] is computed and never
    printed. For the graph [{A: [(B, "^1.0.0"), (C, "*")]}] the tree shows
    the bare names [B] and [C]; the constraint [^1.0.0] is not appended to
    the label of [B]. In general the printed tree is the same whatever
    constraint the edges of the graph carry. *)
Theorem ascii_tree_omits_version :
  (let st := build_dependency_graph_bfs versioned_registry (fixture_files [])
               (registry_args 3) "A" 0 [] init in
   dependency_graph st = [("A", [("B", "^1.0.0"); ("C", "*")])] ∧
   stdout st = [] ∧
   stdout <$> print_ascii_tree 3 "A" None "" true st =
   Some [ nl +:+ "🌳 ASCII-ДЕРЕВО ЗАВИСИМОСТЕЙ ДЛЯ: A";
          "==================================================";
          "└── A";
          "    ├── B";
          "    └── C" ]) ∧
  (∀ fuel start current prefix is_last st ver,
     stdout <$> print_ascii_tree fuel start current prefix is_last
                  (set_graph (with_versions ver (dependency_graph st)) st)
     = stdout <$> print_ascii_tree fuel start current prefix is_last st).
Proof.
  split; [vm_compute; done|]. intros.
  apply print_ascii_tree_ignores_versions.
Qed.

(** C4 (as amended). A call below the depth bound on a package that is
    already on the current path sets the cycle flag, prints the cyclic path
    (the path followed by the package) and changes nothing else: no edge, no
    package, no further call. *)
Theorem cycle_detection registry files args pkg depth path st :
  depth < max_depth args → pkg ∈ path →
  let st' := build_dependency_graph_bfs registry files args pkg depth path st in
  st' = set_cycle_detected (print (cycle_message path pkg) st) ∧
  cycle_detected st' = true ∧
  stdout st' =
    stdout st ++ ["⚠️  Обнаружена циклическая зависимость: "
                  +:+ join " -> " (path ++ [pkg])] ∧
  dependency_graph st' = dependency_graph st ∧
  all_packages st' = all_packages st.
Proof.
  intros Hd Hin st'. subst st'. rewrite run_cycle by done. done.
Qed.

Lemma cycle_detection_witness :
  let st' := build_dependency_graph_bfs no_registry
               (fixture_files cyclic_fixture) (fixture_args 5)
               "A" 2 ["A"; "B"] init in
  2 < 5 ∧ "A" ∈ ["A"; "B"] ∧
  cycle_detected st' = true ∧
  stdout st' = ["⚠️  Обнаружена циклическая зависимость: A -> B -> A"] ∧
  dependency_graph st' = [].
Proof.
  assert (H1 : 2 < max_depth (fixture_args 5)) by (simpl; lia).
  assert (H2 : "A" ∈ ["A"; "B"]) by left.
  destruct (cycle_detection no_registry (fixture_files cyclic_fixture)
              (fixture_args 5) "A" 2 ["A"; "B"] init H1 H2)
    as (_ & Hflag & Hout & Hgraph & _).
  split_and!; [lia|exact H2|exact Hflag|exact Hout|exact Hgraph].
Defined.

(** C4, the claim as stated fails: the depth bound is checked first. With
    [max_depth = 2] the call on [A] at depth 2 with [A] on the path returns
    at once, and the whole run over the cyclic fixture ends with the cycle
    flag unset and nothing printed. *)
Lemma cycle_check_after_depth_bound :
  let st' := build_dependency_graph_bfs no_registry
               (fixture_files cyclic_fixture) (fixture_args 2)
               "A" 2 ["A"; "B"] init in
  let whole := build_fixture cyclic_fixture 2 "A" in
  "A" ∈ ["A"; "B"] ∧ st' = init ∧ cycle_detected st' = false ∧
  cycle_detected whole = false ∧ stdout whole = [] ∧
  dependency_graph whole = [("A", [("B", "*")]); ("B", [("A", "*")])].
Proof. split; [left|]. vm_compute. done. Qed.

(** C5 (as amended). A call at a depth that has reached [max_depth] returns
    the state it was given. Hence in a graph built by a root call at depth 0
    every edge starts at a package that some chain of fewer than
    [max_depth] edges of the graph joins to the start package, so that some
    chain of at most [max_depth] edges leads to its target; and with
    [max_depth = 1] the edges of the graph are exactly the direct
    dependencies of the start package. Other chains of the graph can be
    longer than [max_depth], since the edges recorded for a package on
    different branches are kept under its one name. *)
Theorem depth_bound registry files args :
  (∀ pkg depth path st,
     depth >= max_depth args →
     build_dependency_graph_bfs registry files args pkg depth path st = st) ∧
  (∀ start u v ver,
     let st := build_dependency_graph_bfs registry files args start 0 [] init in
     has_edge (dependency_graph st) u v ver →
     ∃ d, Z.of_nat d < max_depth args ∧
          chain (dependency_graph st) start d u ∧
          chain (dependency_graph st) start (S d) v) ∧
  (max_depth args = 1 →
   ∀ start u v ver,
     let st := build_dependency_graph_bfs registry files args start 0 [] init in
     has_edge (dependency_graph st) u v ver ↔
     u = start ∧
     ∃ deps, get_direct_dependencies registry files args start = Ok deps ∧
             (v, ver) ∈ deps).
Proof.
  split_and!.
  - intros. by apply run_depth_reached.
  - intros start u v ver st Hedge.
    destruct (run_bounded registry files args start u v ver Hedge)
      as [_ (d & Hd & Hc)].
    exists d. split_and!; [done|done|]. by econstructor.
  - intros Hmax start u v ver st. split.
    + intros Hedge.
      destruct (run_bounded registry files args start u v ver Hedge)
        as [Hsrc (d & Hd & Hc)].
      assert (d = O) as -> by lia. apply chain_zero in Hc as ->. done.
    + intros [-> (deps & Hdeps & Hin)]. subst st.
      rewrite (run_expand _ _ _ _ _ _ _ deps) by (done || lia || set_solver).
      by apply expand_dependencies_records.
Qed.

Lemma depth_bound_witness :
  let args := fixture_args 1 in
  let st := build_dependency_graph_bfs no_registry (fixture_files chain_fixture)
              args "A" 0 [] init in
  1 >= max_depth args ∧ max_depth args = 1 ∧
  build_dependency_graph_bfs no_registry (fixture_files chain_fixture)
    args "B" 1 ["A"] init = init ∧
  (has_edge (dependency_graph st) "B" "C" "*" ↔
   "B" = "A" ∧
   ∃ deps, get_direct_dependencies no_registry (fixture_files chain_fixture)
             args "A" = Ok deps ∧ ("C", "*") ∈ deps).
Proof.
  intros args st.
  assert (H1 : 1 >= max_depth args) by (simpl; lia).
  assert (H2 : max_depth args = 1) by reflexivity.
  destruct (depth_bound no_registry (fixture_files chain_fixture) args)
    as (Hstop & _ & Hone).
  split_and!; [exact H1|exact H2|exact (Hstop "B" 1 ["A"] init H1)|].
  exact (Hone H2 "A" "B" "C" "*").
Defined.

(** C5, the claim as stated fails: on the fixture
    [{A: [B, C], B: [C], C: [D]}] with [max_depth = 2] the branches
    [A -> B -> C] and [A -> C -> D] are recorded under the same names, so
    that the graph holds the path [A -> B -> C -> D] of three edges, and the
    tree shows [D] three levels below [A]. *)
Lemma depth_bound_exceeded :
  let st := build_fixture merged_fixture 2 "A" in
  max_depth (fixture_args 2) = 2 ∧
  dependency_graph st
  = [("A", [("B", "*"); ("C", "*")]); ("B", [("C", "*")]); ("C", [("D", "*")])] ∧
  chain (dependency_graph st) "A" 3 "D" ∧
  ¬ (∀ d x, chain (dependency_graph st) "A" d x → Z.of_nat d ≤ 2) ∧
  stdout <$> print_ascii_tree 4 "A" None "" true st =
  Some [ nl +:+ "🌳 ASCII-ДЕРЕВО ЗАВИСИМОСТЕЙ ДЛЯ: A";
         "==================================================";
         "└── A";
         "    ├── B";
         "    │   └── C";
         "    │       └── D";
         "    └── C";
         "        └── D" ].
Proof.
  intros st.
  assert (Hchain : chain (dependency_graph st) "A" 3 "D").
  { apply (chain_step _ _ 2 "C" "D" "*");
      [apply (chain_step _ _ 1 "B" "C" "*");
         [apply (chain_step _ _ 0 "A" "B" "*"); [constructor|]|]|];
      apply has_edge_edge_list; vm_compute.
    - left.
    - right. right. left.
    - right. right. right. left. }
  split_and!; [reflexivity|vm_compute; reflexivity|exact Hchain| |
               vm_compute; reflexivity].
  intros H. specialize (H 3%nat "D" Hchain). lia.
Qed.

(** C6. On the fixture [{A: [B, C], B: [], C: [B]}] with [max_depth = 3] and
    start package [A] the built graph holds exactly the edges [A -> B],
    [A -> C] and [C -> B], each with the wildcard constraint, and
    [calculate_load_order] returns [[A, C, B]] whatever the iteration order
    of the package set. *)
Theorem diamond_scenario ord :
  let st := build_fixture diamond_fixture 3 "A" in
  dependency_graph st = [("A", [("B", "*"); ("C", "*")]); ("C", [("B", "*")])] ∧
  (∀ u v ver, has_edge (dependency_graph st) u v ver ↔
     (u, v, ver) ∈ [("A", "B", "*"); ("A", "C", "*"); ("C", "B", "*")]) ∧
  (calculate_load_order ord st "A").2 = ["A"; "C"; "B"].
Proof.
  intros st.
  assert (Hg : dependency_graph st
               = [("A", [("B", "*"); ("C", "*")]); ("C", [("B", "*")])])
    by (vm_compute; reflexivity).
  split_and!; [done| |].
  - intros u v ver. rewrite has_edge_edge_list, Hg. done.
  - cbn [calculate_load_order snd]. rewrite kahn_order. cbv zeta.
    assert (Hq : filter (λ node, occ node (targets (dependency_graph st)) = 0)
                   (set_iter ord (all_packages st)) = ["A"]).
    { apply Permutation_singleton_r. rewrite (set_iter_perm ord).
      vm_compute. reflexivity. }
    rewrite Hq. vm_compute. reflexivity.
Qed.

(** C7. When the lookup of a package fails during its expansion, the call
    adds the package to the known packages, prints the diagnostic for it,
    records no edge and returns normally. For the traversal as a whole the
    failure is the same as an empty answer: a run over a source in which
    every failing lookup is replaced by an empty dependency list builds the
    same graph, package set and cycle flag; only the diagnostics differ. *)
Theorem source_failure_local registry files args registry' files' args' :
  max_depth args' = max_depth args →
  (∀ p, get_direct_dependencies registry' files' args' p
        = recovered (get_direct_dependencies registry files args p)) →
  ∀ pkg depth path st,
    (∀ e, depth < max_depth args → pkg ∉ path →
          get_direct_dependencies registry files args pkg = Err e →
          let st' :=
            build_dependency_graph_bfs registry files args pkg depth path st in
          st' = print (error_message pkg e) (add_package pkg st) ∧
          stdout st' =
            stdout st ++ ["⚠️  Ошибка при обработке пакета " +:+ pkg
                          +:+ ": " +:+ e] ∧
          dependency_graph st' = dependency_graph st ∧
          cycle_detected st' = cycle_detected st) ∧
    same_analysis
      (build_dependency_graph_bfs registry files args pkg depth path st)
      (build_dependency_graph_bfs registry' files' args' pkg depth path st).
Proof.
  intros Hmax Hsrc pkg depth path st. split.
  - intros e Hd Hpath Herr st'. subst st'.
    rewrite (run_error _ _ _ _ _ _ _ e) by done. done.
  - unfold build_dependency_graph_bfs. rewrite Hmax.
    by apply build_fuel_recovered.
Qed.

Lemma source_failure_local_witness :
  let args := registry_args 3 in
  let registry' := λ u p, recovered (partial_registry u p) in
  let st := build_dependency_graph_bfs partial_registry (fixture_files []) args
              "A" 0 [] init in
  let failing := build_dependency_graph_bfs partial_registry (fixture_files [])
                   args "C" 1 ["A"] init in
  max_depth args = max_depth args ∧ 1 < max_depth args ∧ ("C" ∉ ["A"]) ∧
  stdout failing =
    ["⚠️  Ошибка при обработке пакета C: Пакет 'C' не найден в репозитории"] ∧
  dependency_graph failing = [] ∧
  dependency_graph st =
    [("A", [("B", "^1.0.0"); ("C", "^2.0.0"); ("D", "*")]);
     ("B", [("E", "1.2.3")])] ∧
  same_analysis st
    (build_dependency_graph_bfs registry' (fixture_files []) args "A" 0 [] init).
Proof.
  intros args registry' st failing.
  assert (Hsrc : ∀ p,
    get_direct_dependencies registry' (fixture_files []) args p
    = recovered (get_direct_dependencies partial_registry (fixture_files []) args p))
    by reflexivity.
  assert (H1 : 1 < max_depth args) by (simpl; lia).
  assert (H2 : "C" ∉ ["A"]) by (by intros [= ]%list_elem_of_singleton).
  destruct (source_failure_local partial_registry (fixture_files []) args
              registry' (fixture_files []) args eq_refl Hsrc "C" 1 ["A"] init)
    as [Hlocal _].
  destruct (Hlocal _ H1 H2 eq_refl) as (_ & Hout & Hgraph & _).
  split_and!;
    [reflexivity|exact H1|exact H2|exact Hout|exact Hgraph
    |vm_compute; reflexivity|].
  exact (proj2 (source_failure_local partial_registry (fixture_files []) args
                  registry' (fixture_files []) args eq_refl Hsrc "A" 0 [] init)).
Defined.

(** C8. Running [calculate_load_order] again on the state it left returns
    the same sequence and leaves the same state; the first run changes
    neither the graph nor the set of packages. *)
Theorem load_order_idempotent ord st start_package :
  let first := calculate_load_order ord st start_package in
  let second := calculate_load_order ord first.1 start_package in
  second.2 = first.2 ∧ second.1 = first.1 ∧
  dependency_graph first.1 = dependency_graph st ∧
  all_packages first.1 = all_packages st.
Proof. done. Qed.

(** C9 (as amended). For a graph built from a fresh analyzer the lines of
    the Graphviz description are the header, one declaration for the start
    package, one declaration for each other known package, and the edge
    part. The declared packages are pairwise distinct, and they are the
    start package, which is always declared, together with the packages that
    are the source or the target of some edge. The declaration of the start
    package is the only one with the fill attribute, and distinct packages
    have distinct declarations. *)
Theorem graphviz_declarations registry files args ord start :
  let st := build_dependency_graph_bfs registry files args start 0 [] init in
  let others := other_packages ord st start in
  dot_lines ord args st start =
    dot_header args st start
    ++ start_declaration start :: (node_declaration <$> others)
    ++ "" :: "    // Зависимости между пакетами"
       :: dot_edges st ++ dot_cycle_note st ++ ["}"] ∧
  NoDup (start :: others) ∧
  (∀ x, x ∈ start :: others ↔ x = start ∨ endpoint (dependency_graph st) x) ∧
  (∀ p q, node_declaration p ≠ start_declaration q) ∧
  (∀ p q, node_declaration p = node_declaration q → p = q).
Proof.
  intros st others. split_and!.
  - done.
  - apply NoDup_cons. split.
    + intros [Hne _]%list_elem_of_filter. done.
    + apply NoDup_filter, set_iter_NoDup.
  - intros x. pose proof (run_closed registry files args start x) as Hc.
    cbv zeta in Hc. fold st in Hc. rewrite <- Hc.
    unfold others, other_packages.
    rewrite elem_of_cons, list_elem_of_filter, elem_of_set_iter.
    destruct (decide (x = start)); tauto.
  - apply declarations_differ.
  - apply node_declaration_inj.
Qed.

(** C9, the claim as stated fails: a start package without dependencies is
    declared although the graph has no edge at all. *)
Lemma graphviz_declares_isolated_start :
  let st := build_fixture leaf_fixture 3 "A" in
  dependency_graph st = [] ∧
  (∀ x, ¬ endpoint (dependency_graph st) x) ∧
  dot_lines elements_order (fixture_args 3) st "A" !! 9%nat
  = Some (start_declaration "A") ∧
  start_declaration "A" ∈ dot_lines elements_order (fixture_args 3) st "A".
Proof.
  assert (Hg : dependency_graph (build_fixture leaf_fixture 3 "A") = [])
    by (vm_compute; reflexivity).
  assert (Hline :
    dot_lines elements_order (fixture_args 3)
      (build_fixture leaf_fixture 3 "A") "A" !! 9%nat
    = Some (start_declaration "A")) by (vm_compute; reflexivity).
  split_and!; [exact Hg| |exact Hline|].
  - intros x (u & v & ver & (deps & Hin & _) & _).
    rewrite Hg in Hin. by apply elem_of_nil in Hin.
  - by eapply list_elem_of_lookup_2.
Qed.

(** C10. For a state produced by a run of the builder on a fresh analyzer,
    the sequence returned by [calculate_load_order] has no duplicates, all
    its elements belong to [all_packages], and it is no longer than the
    number of packages. *)
Theorem load_order_distinct_known registry files args ord pkg depth path :
  let st := build_dependency_graph_bfs registry files args pkg depth path init in
  let order := (calculate_load_order ord st pkg).2 in
  NoDup order ∧
  (∀ x, x ∈ order → x ∈ all_packages st) ∧
  (length order ≤ size (all_packages st))%nat.
Proof.
  intros st order.
  destruct (build_state_ok registry files args pkg depth path) as [Hwf Hknown].
  fold st in Hwf, Hknown. subst order. cbn [calculate_load_order snd].
  assert (Hsub : ∀ x, x ∈ (kahn ord st).2 → x ∈ all_packages st).
  { intros x Hx. destruct (kahn_known ord st x Hwf Hx); [done|by apply Hknown]. }
  split_and!; [by apply kahn_NoDup|done|].
  unfold size, set_size. simpl. apply submseteq_length, NoDup_submseteq.
  - by apply kahn_NoDup.
  - intros x Hx. apply elem_of_elements. by apply Hsub.
Qed.

(** * Further properties of the program *)

(** ** The graph builder *)

(** X1. A call of the builder only adds: the edge list of every package is
    continued at its end, existing keys keep their positions, no package
    leaves [all_packages], a raised cycle flag is not cleared, the stored
    load order is not touched and the lines printed before remain. *)
Theorem builder_only_extends registry files args pkg depth path st :
  let st' := build_dependency_graph_bfs registry files args pkg depth path st in
  (∀ u deps, PyDict.get (dependency_graph st) u = Some deps →
     ∃ more, PyDict.get (dependency_graph st') u = Some (deps ++ more)) ∧
  PyDict.keys (dependency_graph st) `prefix_of` PyDict.keys (dependency_graph st') ∧
  all_packages st ⊆ all_packages st' ∧
  (cycle_detected st = true → cycle_detected st' = true) ∧
  load_order st' = load_order st ∧
  stdout st `prefix_of` stdout st'.
Proof.
  intros st'. subst st'. unfold build_dependency_graph_bfs.
  apply (build_fuel_steps registry files args extends).
  - apply extends_refl.
  - apply extends_trans.
  - intros p s. split_and!; simpl; try done.
    + intros u deps H. exists []. by rewrite (right_id_L [] (++)).
    + apply union_subseteq_r.
  - intros p dep ver s. split_and!; simpl; try done.
    + intros u deps H. rewrite get_graph_append.
      destruct (decide (p = u)) as [->|Hne].
      * exists [(dep, ver)]. unfold PyDict.get_default. by rewrite H.
      * exists []. by rewrite (right_id_L [] (++)).
    + apply keys_graph_append.
    + apply union_subseteq_r.
  - intros p e s. split_and!; simpl; try done.
    + intros u deps H. exists []. by rewrite (right_id_L [] (++)).
    + by apply prefix_app_r.
  - intros pa p s. split_and!; simpl; try done.
    + intros u deps H. exists []. by rewrite (right_id_L [] (++)).
    + by apply prefix_app_r.
Qed.

(** X2. In a graph built from a fresh analyzer no key has an empty edge
    list (a package without dependencies never becomes a key), and every
    package the graph mentions, as a key or as a dependency, is in
    [all_packages]. *)
Theorem built_graph_entries registry files args start :
  let st := build_dependency_graph_bfs registry files args start 0 [] init in
  (∀ k ds, (k, ds) ∈ dependency_graph st → ds ≠ [] ∧ k ∈ all_packages st) ∧
  (∀ k ds v ver, (k, ds) ∈ dependency_graph st → (v, ver) ∈ ds →
     v ∈ all_packages st).
Proof.
  intros st.
  assert (Hne : no_empty_entry st).
  { apply build_fuel_no_empty_entry. intros k ds Hin. by apply elem_of_nil in Hin. }
  destruct (build_state_ok registry files args start 0 []) as [_ Hknown].
  fold st in Hknown.
  split.
  - intros k ds Hin. split; [by eapply Hne|].
    destruct ds as [|[v ver] ds]; [by apply Hne in Hin|].
    assert (Hedge : has_edge (dependency_graph st) k v ver)
      by (exists ((v, ver) :: ds); split; [done|left]).
    destruct (decide (0 >= max_depth args)) as [Hd|Hd].
    { subst st. rewrite run_depth_reached in Hin by done.
      by apply elem_of_nil in Hin. }
    pose proof (run_closed registry files args start k) as Hc.
    cbv zeta in Hc. fold st in Hc.
    assert (Hor : k = start ∨ k ∈ all_packages st).
    { apply Hc. right. exists k, v, ver. split; [done|by left]. }
    destruct Hor as [->|Hk]; [|done].
    apply run_start_known; [lia|apply not_elem_of_nil].
  - intros k ds v ver Hin Hv. apply Hknown, elem_of_targets.
    exists k, ver, ds. done.
Qed.

(** X3. The builder invents no edge: every edge of a graph built from a
    fresh analyzer is one of the dependencies the source returned for the
    package it starts from, with the version constraint the source gave. *)
Theorem built_edges_from_source registry files args start u v ver :
  let st := build_dependency_graph_bfs registry files args start 0 [] init in
  has_edge (dependency_graph st) u v ver →
  ∃ deps, get_direct_dependencies registry files args u = Ok deps ∧
          (v, ver) ∈ deps.
Proof.
  intros st Hedge.
  by destruct (run_bounded registry files args start u v ver Hedge) as [? _].
Qed.

Lemma built_edges_from_source_witness :
  let st := build_fixture diamond_fixture 3 "A" in
  has_edge (dependency_graph st) "C" "B" "*" ∧
  ∃ deps, get_direct_dependencies no_registry (fixture_files diamond_fixture)
            (fixture_args 3) "C" = Ok deps ∧ ("B", "*") ∈ deps.
Proof.
  assert (Hedge : has_edge (dependency_graph (build_fixture diamond_fixture 3 "A"))
                    "C" "B" "*").
  { apply has_edge_edge_list. vm_compute. right. right. left. }
  split; [exact Hedge|].
  exact (built_edges_from_source no_registry (fixture_files diamond_fixture)
           (fixture_args 3) "A" "C" "B" "*" Hedge).
Defined.

(** X4. After a run of the builder on a fresh analyzer the cycle flag is
    set exactly when a cycle diagnostic was printed; the diagnostic of a
    failed lookup is never mistaken for one. *)
Theorem cycle_flag_iff_reported registry files args pkg depth path :
  let st := build_dependency_graph_bfs registry files args pkg depth path init in
  (cycle_detected st = true ↔
   ∃ cyclic_path package, cycle_message cyclic_path package ∈ stdout st) ∧
  (∀ cyclic_path package package' e,
     cycle_message cyclic_path package ≠ error_message package' e).
Proof.
  split; [|intros; apply cycle_message_not_error].
  apply build_fuel_cycle_flag. split; [done|].
  intros (pa & q & Hin). by apply elem_of_nil in Hin.
Qed.

(** ** The fixture-backed dependency source *)



(** ** The load-order resolver *)

(** X6. Every known package that [calculate_load_order] leaves out of the
    returned sequence is the target of an edge whose source is left out as
    well: nothing is withheld without a withheld package it depends on being
    ordered first. *)
Theorem load_order_omission_has_cause ord st start_package v :
  PyDict.wf (dependency_graph st) →
  v ∈ all_packages st ∨ v ∈ targets (dependency_graph st) →
  v ∉ (calculate_load_order ord st start_package).2 →
  ∃ u ver, has_edge (dependency_graph st) u v ver ∧
           u ∉ (calculate_load_order ord st start_package).2.
Proof. apply kahn_omitted_pred. Qed.

Lemma load_order_omission_has_cause_witness :
  let st := build_fixture cyclic_fixture 5 "A" in
  PyDict.wf (dependency_graph st) ∧
  ("A" ∈ all_packages st ∨ "A" ∈ targets (dependency_graph st)) ∧
  ("A" ∉ (calculate_load_order elements_order st "A").2) ∧
  ∃ u ver, has_edge (dependency_graph st) u "A" ver ∧
           u ∉ (calculate_load_order elements_order st "A").2.
Proof.
  intros st.
  assert (Hwf : PyDict.wf (dependency_graph st))
    by (apply wf_unpack; vm_compute; reflexivity).
  assert (Hv : "A" ∈ all_packages st ∨ "A" ∈ targets (dependency_graph st))
    by (right; vm_compute; right; left).
  assert (Hout : "A" ∉ (calculate_load_order elements_order st "A").2)
    by (vm_compute; apply not_elem_of_nil).
  split_and!; [exact Hwf|exact Hv|exact Hout|].
  exact (load_order_omission_has_cause elements_order st "A" "A" Hwf Hv Hout).
Defined.

(** X7. If the packages can be ranked so that every edge leads to a higher
    rank (the graph is acyclic) and every edge source is a known package,
    the returned sequence contains every known package and every edge
    target, and every edge goes forward in it. *)
Theorem load_order_complete_on_dag ord st start_package (rank : string → nat) :
  PyDict.wf (dependency_graph st) →
  (∀ u v ver, has_edge (dependency_graph st) u v ver →
     u ∈ all_packages st ∧ (rank u < rank v)%nat) →
  let order := (calculate_load_order ord st start_package).2 in
  (∀ v, v ∈ all_packages st ∨ v ∈ targets (dependency_graph st) → v ∈ order) ∧
  (∀ u v ver, has_edge (dependency_graph st) u v ver → before u v order).
Proof.
  intros Hwf Hdag order. subst order. cbn [calculate_load_order snd].
  assert (Hall : ∀ n v, (rank v < n)%nat →
    v ∈ all_packages st ∨ v ∈ targets (dependency_graph st) →
    v ∈ (kahn ord st).2).
  { induction n as [|n IH]; intros v Hn Hv; [lia|].
    apply dec_stable. intros Hout.
    destruct (kahn_omitted_pred ord st v Hwf Hv Hout) as (u & ver & Hedge & Hu).
    destruct (Hdag u v ver Hedge) as [Hknown Hlt].
    apply Hu, IH; [lia|by left]. }
  split.
  - intros v Hv. by apply (Hall (S (rank v))); [lia|].
  - intros u v ver Hedge. apply (kahn_before ord st u v ver Hwf Hedge).
    apply (Hall (S (rank v))); [lia|]. right. apply elem_of_targets. eauto.
Qed.

Lemma load_order_complete_on_dag_witness :
  let st := build_fixture diamond_fixture 3 "A" in
  let order := (calculate_load_order elements_order st "A").2 in
  PyDict.wf (dependency_graph st) ∧
  "B" ∈ order ∧ before "C" "B" order.
Proof.
  intros st order.
  assert (Hwf : PyDict.wf (dependency_graph st))
    by (apply wf_unpack; vm_compute; reflexivity).
  assert (Hdag : ∀ u v ver, has_edge (dependency_graph st) u v ver →
                   u ∈ all_packages st ∧ (diamond_rank u < diamond_rank v)%nat).
  { intros u v ver Hedge. apply has_edge_edge_list in Hedge.
    vm_compute in Hedge.
    repeat (apply elem_of_cons in Hedge as [[= -> -> ->]|Hedge];
            [split; [vm_compute; set_solver|vm_compute; lia]|]).
    by apply elem_of_nil in Hedge. }
  destruct (load_order_complete_on_dag elements_order st "A" diamond_rank
              Hwf Hdag) as [Hall Hbefore].
  split_and!; [exact Hwf| |].
  - apply Hall. right. vm_compute. left.
  - apply (Hbefore "C" "B" "*"). apply has_edge_edge_list. vm_compute.
    right. right. left.
Defined.

(** X8. For a graph built from a fresh analyzer the returned load order
    does not depend on the order in which Python iterates over the package
    set. It is empty when some edge leads back to the start package (or when
    [max_depth] is not positive); otherwise it begins with the start
    package. *)
Theorem built_load_order registry files args start :
  let st := build_dependency_graph_bfs registry files args start 0 [] init in
  (∀ ord ord',
     (calculate_load_order ord st start).2
     = (calculate_load_order ord' st start).2) ∧
  (∀ ord,
     0 >= max_depth args ∨ start ∈ targets (dependency_graph st) →
     (calculate_load_order ord st start).2 = []) ∧
  (∀ ord,
     0 < max_depth args → start ∉ targets (dependency_graph st) →
     ∃ rest, (calculate_load_order ord st start).2 = start :: rest).
Proof.
  intros st. cbn [calculate_load_order snd]. split_and!.
  - intros ord ord'. rewrite !kahn_order. cbv zeta.
    destruct (built_initial_queue registry files args ord start)
      as (Hnd & Hall & Hin).
    destruct (built_initial_queue registry files args ord' start)
      as (Hnd' & Hall' & Hin').
    fold st in Hnd, Hall, Hin, Hnd', Hall', Hin'.
    rewrite (all_equal_lists start _ _ Hnd Hnd' Hall Hall'); [done|].
    by rewrite Hin, Hin'.
  - intros ord Hempty. rewrite kahn_order. cbv zeta.
    destruct (built_initial_queue registry files args ord start)
      as (Hnd & Hall & Hin).
    fold st in Hnd, Hall, Hin.
    destruct (filter _ (set_iter ord (all_packages st))) as [|x queue] eqn:Hq.
    + by destruct (_ + _)%nat.
    + exfalso. assert (x = start) as -> by (apply Hall; left).
      destruct (proj1 Hin) as [Hs Ht]; [left|].
      destruct Hempty as [Hd|?]; [|done].
      subst st. rewrite run_depth_reached in Hs by done.
      by apply elem_of_empty in Hs.
  - intros ord Hd Hfree. rewrite kahn_order. cbv zeta.
    destruct (built_initial_queue registry files args ord start)
      as (Hnd & Hall & Hin).
    fold st in Hnd, Hall, Hin.
    assert (Hs : start ∈ filter
      (λ node, occ node (targets (dependency_graph st)) = 0)
      (set_iter ord (all_packages st))).
    { apply Hin. split; [|done].
      apply run_start_known; [done|apply not_elem_of_nil]. }
    destruct (filter _ (set_iter ord (all_packages st))) as [|x queue] eqn:Hq;
      [by apply elem_of_nil in Hs|].
    assert (x = start) as -> by (apply Hall; left).
    cbn [length Nat.add drain].
    destruct (visit_neighbors _ _ queue) as [in_degree' queue'].
    destruct (drain_order_prefix
                (length queue + edge_count (dependency_graph st))
                (dependency_graph st) in_degree' queue' ([] ++ [start]))
      as [rest Hrest].
    exists rest. by rewrite Hrest.
Qed.

(** ** The Graphviz description *)

(** X9. In the description of a graph built with a positive [max_depth]
    the number of packages announced in the header equals the number of
    node declarations that follow. With a [max_depth] that is not positive
    the header announces 0 packages and the start package is declared all
    the same. *)
Theorem graphviz_package_count registry files args ord start :
  let st := build_dependency_graph_bfs registry files args start 0 [] init in
  let declared := start :: other_packages ord st start in
  dot_header args st start !! 7%nat
  = Some ("    // Всего пакетов: " +:+ pretty (size (all_packages st))) ∧
  (0 < max_depth args → length declared = size (all_packages st)) ∧
  (0 >= max_depth args → declared = [start] ∧ size (all_packages st) = O).
Proof.
  intros st declared. split_and!.
  - done.
  - intros Hd. unfold declared, other_packages. cbn [length].
    rewrite length_filter_ne.
    + unfold size, set_size. simpl. by rewrite (set_iter_perm ord).
    + apply set_iter_NoDup.
    + apply elem_of_set_iter, run_start_known; [done|apply not_elem_of_nil].
  - intros Hd. unfold declared, other_packages. subst st.
    rewrite run_depth_reached by done. simpl.
    assert (Hnil : set_iter ord ∅ = []).
    { apply Permutation_nil_r. by rewrite (set_iter_perm ord), elements_empty. }
    by rewrite Hnil.
Qed.

(** ** The tree renderer *)

(** X10. [print_ascii_tree] changes nothing but the output: when it returns,
    the graph, the cycle flag, the load order and the package set are as
    before and the lines printed before are still there, followed by the
    tree. *)
Theorem ascii_tree_only_prints fuel start current prefix is_last st st' :
  print_ascii_tree fuel start current prefix is_last st = Some st' →
  dependency_graph st' = dependency_graph st ∧
  cycle_detected st' = cycle_detected st ∧
  load_order st' = load_order st ∧
  all_packages st' = all_packages st ∧
  stdout st `prefix_of` stdout st'.
Proof. apply print_ascii_tree_more. Qed.

Lemma ascii_tree_only_prints_witness :
  let st := build_fixture diamond_fixture 3 "A" in
  ∃ st', print_ascii_tree 4 "A" None "" true st = Some st' ∧
         dependency_graph st' = dependency_graph st ∧
         stdout st `prefix_of` stdout st'.
Proof.
  intros st.
  destruct (print_ascii_tree 4 "A" None "" true st) as [st'|] eqn:Hrun;
    [|vm_compute in Hrun; discriminate Hrun].
  exists st'.
  destruct (ascii_tree_only_prints 4 "A" None "" true st st' Hrun)
    as (Hg & _ & _ & _ & Hout).
  split_and!; [reflexivity|exact Hg|exact Hout].
Defined.

(** X11. The recursion of [print_ascii_tree] is as deep as the paths of the
    stored graph are long: where a path of [n] edges starts at the node
    being rendered, no run of at most [n] nested calls finishes. Hence on a
    graph with a cycle that can be reached from the rendered node (the
    builder stores the edge that closes a cycle) the renderer never
    returns. *)
Theorem ascii_tree_depth fuel start current prefix is_last st n y :
  PyDict.wf (dependency_graph st) →
  chain (dependency_graph st) (default start current) n y →
  (fuel ≤ n)%nat →
  print_ascii_tree fuel start current prefix is_last st = None.
Proof.
  intros Hwf Hc Hn. destruct current as [x|].
  - by eapply print_ascii_tree_stuck.
  - rewrite print_ascii_tree_top. by eapply print_ascii_tree_stuck.
Qed.

Lemma ascii_tree_depth_witness :
  let st := build_fixture cyclic_fixture 5 "A" in
  PyDict.wf (dependency_graph st) ∧
  ∀ fuel, print_ascii_tree fuel "A" None "" true st = None.
Proof.
  intros st.
  assert (Hg : dependency_graph st = [("A", [("B", "*")]); ("B", [("A", "*")])])
    by (vm_compute; reflexivity).
  assert (Hwf : PyDict.wf (dependency_graph st))
    by (apply wf_unpack; vm_compute; reflexivity).
  split; [exact Hwf|]. intros fuel.
  destruct (cyclic_chain fuel) as [y Hy]. rewrite <- Hg in Hy.
  exact (ascii_tree_depth fuel "A" None "" true st fuel y Hwf Hy (le_n fuel)).
Defined.

(** X12. Conversely, when no path of [n] edges starts at the rendered node,
    [n] nested calls suffice: the renderer returns. *)
Theorem ascii_tree_returns fuel start current prefix is_last st n :
  (∀ y, ¬ chain (dependency_graph st) (default start current) n y) →
  (n ≤ fuel)%nat →
  is_Some (print_ascii_tree fuel start current prefix is_last st).
Proof.
  intros Hno Hn. destruct current as [x|].
  - by apply (print_ascii_tree_shallow n).
  - rewrite print_ascii_tree_top. by apply (print_ascii_tree_shallow n).
Qed.

Lemma ascii_tree_returns_witness :
  let st := build_fixture diamond_fixture 3 "A" in
  (∀ y, ¬ chain (dependency_graph st) "A" 3 y) ∧
  is_Some (print_ascii_tree 3 "A" None "" true st).
Proof.
  intros st.
  assert (Hg : dependency_graph st
               = [("A", [("B", "*"); ("C", "*")]); ("C", [("B", "*")])])
    by (vm_compute; reflexivity).
  assert (Hno : ∀ y, ¬ chain (dependency_graph st) "A" 3 y).
  { intros y Hc. rewrite Hg in Hc.
    apply chain_uncons in Hc as (c1 & v1 & H1 & Hc).
    apply chain_uncons in Hc as (c2 & v2 & H2 & Hc).
    apply chain_uncons in Hc as (c3 & v3 & H3 & _).
    edge_cases H1; subst; edge_cases H2; subst; edge_cases H3. }
  split; [exact Hno|].
  exact (ascii_tree_returns 3 "A" None "" true st 3 Hno (le_n 3)).
Defined.

(** ** Validation of the command line *)

(** X13. [validate_arguments] reports no error exactly when one and only
    one of [--package] and [--test-repo] is given (and not empty),
    [max_depth] is at least 1, the URL is empty or starts with [http://] or
    [https://], and a given fixture file exists. A depth above 10 prints a
    warning and is never an error; nothing else is printed. *)
Theorem validation_accepts_iff path_exists args :
  ((validate_arguments path_exists args).1 = [] ↔
   truthy (Cli.package args) ≠ truthy (Cli.test_repo args) ∧
   1 ≤ Cli.max_depth args ∧
   (Cli.url args = "" ∨
    String.prefix "http://" (Cli.url args) = true ∨
    String.prefix "https://" (Cli.url args) = true) ∧
   (∀ file_path, Cli.test_repo args = Some file_path → file_path ≠ "" →
      path_exists file_path = true)) ∧
  ((validate_arguments path_exists args).2 =
   if decide (10 < Cli.max_depth args)
   then ["Предупреждение: большая глубина анализа может привести к длительному выполнению"]
   else []).
Proof.
  unfold validate_arguments.
  destruct args as [package url test_repo ascii depth lo gv out].
  cbn [Cli.package Cli.url Cli.test_repo Cli.max_depth].
  set (b1 := negb (truthy package) && negb (truthy test_repo)).
  set (b2 := truthy package && truthy test_repo).
  set (b4 := truthy (Some url)
             && negb (String.prefix "http://" url || String.prefix "https://" url)).
  set (b5 := truthy test_repo && negb (path_exists (default "" test_repo))).
  assert (H12 : truthy package ≠ truthy test_repo ↔ b1 = false ∧ b2 = false).
  { unfold b1, b2. destruct (truthy package), (truthy test_repo); simpl;
      split; (try by intros []); try done. }
  assert (H4 : url = "" ∨ String.prefix "http://" url = true
               ∨ String.prefix "https://" url = true ↔ b4 = false).
  { unfold b4. destruct url as [|c url]; [by split; [|left]|].
    cbn [truthy andb].
    destruct (String.prefix "http://" (String c url)),
             (String.prefix "https://" (String c url)); simpl;
      split; try done; auto.
    by intros [|[|]]. }
  assert (H5 : (∀ file_path, test_repo = Some file_path → file_path ≠ "" →
                  path_exists file_path = true) ↔ b5 = false).
  { unfold b5. destruct test_repo as [[|c p]|]; simpl.
    - split; [done|]. by intros _ ? [= <-] ?.
    - destruct (path_exists (String c p)) eqn:He; simpl.
      + split; [done|]. by intros _ ? [= <-] _.
      + split; [|done]. intros H. by rewrite (H _ eq_refl) in He.
    - split; [done|]. by intros _ ? [=]. }
  rewrite H12, H4, H5. clearbody b1 b2 b4 b5. clear H12 H4 H5.
  destruct b1, b2, b4, b5; repeat case_decide; simpl; try lia;
    (split; [|done]);
    (split; [first [discriminate | intros _; split_and!; (done || lia)]|]);
    intros ([? ?] & ? & ? & ?); first [discriminate | lia | done].
Qed.

(** ** Runs of the builder on a used analyzer *)

(** X14. The builder never reads the analyzer it writes to: a call on a
    used analyzer [st] leaves what [st] held followed by what the same call
    leaves on a fresh analyzer. Every edge list is the old list followed by
    the fresh one, the keys are the old keys followed by the new ones in
    their fresh order, the packages are united, the cycle flag is the
    disjunction and the output is appended. In particular a second run from
    the same start doubles every edge list. *)
Theorem builder_run_is_additive registry files args pkg depth path st :
  let run := build_dependency_graph_bfs registry files args pkg depth path in
  ((∀ u, PyDict.get_default (dependency_graph (run st)) u [] =
         PyDict.get_default (dependency_graph st) u [] ++
         PyDict.get_default (dependency_graph (run init)) u []) ∧
   PyDict.keys (dependency_graph (run st)) =
     PyDict.keys (dependency_graph st) ++
     filter (λ k, k ∉ PyDict.keys (dependency_graph st))
       (PyDict.keys (dependency_graph (run init))) ∧
   all_packages (run st) = all_packages (run init) ∪ all_packages st ∧
   cycle_detected (run st) = cycle_detected st || cycle_detected (run init) ∧
   load_order (run st) = load_order st ∧
   stdout (run st) = stdout st ++ stdout (run init)) ∧
  (∀ u, PyDict.get_default (dependency_graph (run (run init))) u [] =
        PyDict.get_default (dependency_graph (run init)) u [] ++
        PyDict.get_default (dependency_graph (run init)) u []).
Proof.
  intros run.
  assert (H : ∀ s, joined s (run init) (run s)).
  { intros s. apply build_fuel_joined, joined_init. }
  split; [apply H|]. apply (H (run init)).
Qed.

(** ** Registry documents *)

(** X15. An answer of [extract_dependencies] comes from the document: the
    document is an object, and the answer is either the empty object or
    the [dependencies] member of an object listed under [versions]. A
    document that is not an object, of whatever kind, makes it raise. *)
Theorem extract_dependencies_sound exc_text package_data r :
  extract_dependencies exc_text package_data = Ok r →
  ∃ d, package_data = JObject d ∧
    (r = JObject [] ∨
     ∃ listed ver version_data,
       PyDict.get d "versions" = Some (JObject listed) ∧
       PyDict.get listed ver = Some (JObject version_data) ∧
       PyDict.get version_data "dependencies" = Some r).
Proof.
  unfold extract_dependencies.
  destruct (extract_dependencies_body package_data) as [x|e] eqn:Hb; [|done].
  intros [= ->]. unfold extract_dependencies_body in Hb.
  apply bind_Return in Hb as (has_tags & H1 & Hb).
  apply bind_Return in Hb as (tagged & H2 & Hb).
  apply bind_Return in Hb as (chosen & H3 & Hb).
  assert (Hobj : ∃ d, package_data = JObject d).
  { destruct tagged.
    - apply bind_Return in H3 as (tags & H3 & _).
      apply py_getitem_Return in H3 as (d & -> & _). by exists d.
    - apply bind_Return in H3 as (listed & H3 & _).
      apply py_get_Return in H3 as (d & -> & _). by exists d. }
  destruct Hobj as [d ->]. exists d. split; [done|].
  destruct chosen as [latest_version|]; [|left; congruence].
  apply bind_Return in Hb as (listed & H4 & Hb).
  apply bind_Return in Hb as (version_data & H5 & Hb).
  apply py_getitem_Return in H4 as (d' & [= <-] & Hlisted).
  apply py_get_Return in H5 as (vs & -> & Hver).
  apply py_get_Return in Hb as (vd & -> & [->|(k & [= <-] & Hdeps)]);
    [by left|].
  destruct Hver as [[=]|(ver & _ & Hver)].
  - subst vd. done.
  - right. by exists vs, ver, vd.
Qed.

Lemma extract_dependencies_sound_witness :
  ∃ d, sample_document = JObject d ∧
    (JObject [("right", JString "^1.2.0")] = JObject [] ∨
     ∃ listed ver version_data,
       PyDict.get d "versions" = Some (JObject listed) ∧
       PyDict.get listed ver = Some (JObject version_data) ∧
       PyDict.get version_data "dependencies"
         = Some (JObject [("right", JString "^1.2.0")])).
Proof.
  apply (extract_dependencies_sound (λ _, "") sample_document). reflexivity.
Defined.

(** X16. Which version [extract_dependencies] reads, for a document whose
    [versions] member is an object of objects: the version named by
    [dist-tags.latest] wherever it is listed, and [{}] when it is not
    listed; without that tag, the version listed last. *)
Theorem extract_dependencies_version exc_text d listed :
  PyDict.get d "versions" = Some (JObject listed) →
  PyDict.wf listed →
  (∀ ver x, (ver, x) ∈ listed → ∃ members, x = JObject members) →
  (∀ tags ver,
     PyDict.get d "dist-tags" = Some (JObject tags) →
     PyDict.get tags "latest" = Some (JString ver) →
     extract_dependencies exc_text (JObject d) =
     Ok (match PyDict.get listed ver with
         | Some version_data => dependencies_of version_data
         | None => JObject []
         end)) ∧
  (PyDict.get d "dist-tags" = None ∨
   (∃ tags, PyDict.get d "dist-tags" = Some (JObject tags) ∧
            PyDict.get tags "latest" = None) →
   extract_dependencies exc_text (JObject d) =
   Ok (match last listed with
       | Some (_, version_data) => dependencies_of version_data
       | None => JObject []
       end)).
Proof.
  intros Hlisted Hwf Hobjects.
  assert (Hread : ∀ ver,
    (listed' ← py_getitem (JObject d) "versions";
     version_data ← py_get listed' (JString ver);
     py_get version_data (JString "dependencies")) =
    Return (match PyDict.get listed ver with
            | Some version_data => dependencies_of version_data
            | None => JObject []
            end)).
  { intros ver. simpl. rewrite Hlisted. simpl. unfold PyDict.get_default at 1.
    destruct (PyDict.get listed ver) as [x|] eqn:Hx; simpl; [|done].
    apply get_Some_elem_of, Hobjects in Hx as [members ->]. done. }
  split.
  - intros tags ver Htags Hlatest.
    unfold extract_dependencies, extract_dependencies_body.
    rewrite py_in_object, Htags, bool_decide_eq_true_2 by done.
    cbn [mbind outcome_bind py_getitem]. rewrite Htags.
    cbn [mbind outcome_bind].
    rewrite py_in_object, Hlatest, bool_decide_eq_true_2 by done.
    cbn [mbind outcome_bind py_getitem]. rewrite Hlatest.
    cbn [mbind outcome_bind].
    specialize (Hread ver). cbn [mbind outcome_bind py_getitem] in Hread.
    by rewrite Hread.
  - intros Huntagged.
    assert (Hfalse :
      (has_tags ← py_in "dist-tags" (JObject d);
       if has_tags : bool then
         tags ← py_getitem (JObject d) "dist-tags"; py_in "latest" tags
       else Return false) = Return false).
    { rewrite py_in_object. destruct Huntagged as [Hno|(tags & Htags & Hno)].
      - by rewrite Hno, bool_decide_eq_false_2 by (by intros H).
      - rewrite Htags, bool_decide_eq_true_2 by done.
        cbn [mbind outcome_bind py_getitem]. rewrite Htags.
        cbn [mbind outcome_bind].
        by rewrite py_in_object, Hno, bool_decide_eq_false_2 by (by intros H). }
    unfold extract_dependencies, extract_dependencies_body.
    destruct (py_in "dist-tags" (JObject d)) as [has_tags|e]; [|done].
    cbn [mbind outcome_bind] in Hfalse |- *. rewrite Hfalse.
    cbn [mbind outcome_bind py_get]. unfold PyDict.get_default.
    rewrite Hlisted. cbn [default id py_keys mbind outcome_bind].
    destruct (last listed) as [[ver x]|] eqn:Hlast.
    + destruct (get_last_key listed ver x Hwf Hlast) as [Hkey Hget].
      rewrite Hkey. cbn [fmap option_fmap option_map mbind outcome_bind].
      specialize (Hread ver). cbn [mbind outcome_bind] in Hread.
      by rewrite Hread, Hget.
    + apply last_None in Hlast. by subst listed.
Qed.

Lemma extract_dependencies_version_witness :
  (∀ tags ver,
     PyDict.get sample_members "dist-tags" = Some (JObject tags) →
     PyDict.get tags "latest" = Some (JString ver) →
     extract_dependencies (λ _, "") (JObject sample_members) =
     Ok (match PyDict.get sample_versions ver with
         | Some version_data => dependencies_of version_data
         | None => JObject []
         end)) ∧
  (PyDict.get sample_members "dist-tags" = None ∨
   (∃ tags, PyDict.get sample_members "dist-tags" = Some (JObject tags) ∧
            PyDict.get tags "latest" = None) →
   extract_dependencies (λ _, "") (JObject sample_members) =
   Ok (match last sample_versions with
       | Some (_, version_data) => dependencies_of version_data
       | None => JObject []
       end)).
Proof.
  apply (extract_dependencies_version (λ _, "") sample_members sample_versions).
  - reflexivity.
  - unfold PyDict.wf. apply (bool_decide_eq_true_1 _). reflexivity.
  - intros ver x H. unfold sample_versions in H.
    repeat (apply elem_of_cons in H as [[= -> ->]|H]; [eauto|]).
    by apply elem_of_nil in H.
Defined.

(** ** The command-line run *)

(** X17. A run with [--load-order] whose arguments pass validation always
    ends through [sys.exit(1)]: the graph is built and the load order is
    computed and stored, then the call of the method [print_load_order],
    which the class does not define, raises. The output is the lines of
    validation and configuration, the diagnostics of the builder and the
    error line; the order is not printed, no view is rendered and no file
    is written. *)
Theorem run_load_order_fails registry {file_system : Type}
    (read_json : file_system → string → result (list (string * list string)))
    path_exists write_file ord compare_with_npm_tree fuel args
    (files : file_system) :
  (validate_arguments (path_exists files) args).1 = [] →
  Cli.load_order args = true →
  let start_package := py_or (Cli.package args) "A" in
  let built :=
    build_dependency_graph_bfs registry (read_json files) (core_args args)
      start_package 0 [] init in
  ∃ st,
    run registry read_json path_exists write_file ord compare_with_npm_tree
      fuel args files
    = Some (Exited 1 (mkWorld st files)) ∧
    dependency_graph st = dependency_graph built ∧
    all_packages st = all_packages built ∧
    cycle_detected st = cycle_detected built ∧
    load_order st = (calculate_load_order ord built start_package).2 ∧
    stdout st =
      (validate_arguments (path_exists files) args).2
      ++ stdout (print_configuration args init)
      ++ stdout built
      ++ ["❌ Ошибка: 'PackageAnalyzer' object has no attribute 'print_load_order'"].
Proof.
  intros Hvalid Hflag start_package built.
  unfold run, run_body. cbn [disk self update].
  destruct (validate_arguments (path_exists files) args) as [errors printed].
  simpl in Hvalid. subst errors. rewrite Hflag. cbn [and_then update self disk].
  eexists. split; [reflexivity|]. cbn [update self disk].
  fold start_package.
  set (st0 := print_configuration args
                (fold_left (λ st line, print line st) printed init)).
  destruct (stdout_fold_print id printed init) as [Hs1 Ho1].
  destruct (print_configuration_prints args
              (fold_left (λ st line, print line st) printed init))
    as [Hs2 Ho2].
  fold st0 in Hs2, Ho2.
  assert (H0 : printed_first (stdout st0) init st0).
  { destruct Hs1 as (? & ? & ? & ?), Hs2 as (? & ? & ? & ?).
    apply same_analysis_init; simpl in *; congruence. }
  apply (build_fuel_printed_first registry (read_json files) (core_args args) _
           (Z.to_nat (max_depth (core_args args) - 0)) start_package 0 [])
    in H0.
  fold (build_dependency_graph_bfs registry (read_json files) (core_args args)
          start_package 0 [] init) in H0.
  fold (build_dependency_graph_bfs registry (read_json files) (core_args args)
          start_package 0 [] st0) in H0.
  fold built in H0. destruct H0 as [Hsame Hout].
  pose proof Hsame as (Hg & Hc & Hl & Hp).
  unfold calculate_load_order. cbn [fst snd set_load_order dependency_graph
    all_packages cycle_detected load_order stdout print].
  split_and!; try done.
  - by rewrite (kahn_same ord _ _ Hsame).
  - rewrite Hout, Ho2. simpl in Ho1. rewrite Ho1, list_fmap_id.
    by rewrite <- !(assoc_L (++)).
Qed.

Lemma run_load_order_fails_witness :
  let args :=
    Cli.mk None "https://registry.npmjs.org" (Some "repo.json") false 3 true
      false None in
  let files := λ _ : unit, fixture_files diamond_fixture in
  let built :=
    build_dependency_graph_bfs no_registry (files ()) (core_args args) "A" 0 []
      init in
  ∃ st,
    run no_registry files (λ _ _, true) (λ _ _ d, (None, d)) elements_order
      (λ _ w, Some (Returned w)) 0 args ()
    = Some (Exited 1 (mkWorld st ())) ∧
    dependency_graph st = dependency_graph built ∧
    all_packages st = all_packages built ∧
    cycle_detected st = cycle_detected built ∧
    load_order st = (calculate_load_order elements_order built "A").2 ∧
    stdout st =
      (validate_arguments (λ _, true) args).2
      ++ stdout (print_configuration args init)
      ++ stdout built
      ++ ["❌ Ошибка: 'PackageAnalyzer' object has no attribute 'print_load_order'"].
Proof.
  intros args files built.
  apply (run_load_order_fails no_registry files (λ _ _, true)
           (λ _ _ d, (None, d)) elements_order (λ _ w, Some (Returned w))
           0 args ()); reflexivity.
Defined.

(** X18. A run on a fixture file that returns has no [--package] and so
    starts from package [A]; it ends with the analyzer holding the analysis
    of package [E], the last of the demonstration, made from a new state:
    nothing of the analysis of the start package is left, and the stored
    load order is empty. When no file is written the fixture read is the
    one the run started with, and the files are unchanged. *)
Theorem fixture_run_ends_on_demonstration registry {file_system : Type}
    (read_json : file_system → string → result (list (string * list string)))
    path_exists write_file ord compare_with_npm_tree fuel args
    (files : file_system) w' :
  truthy (Cli.test_repo args) = true →
  run registry read_json path_exists write_file ord compare_with_npm_tree
    fuel args files = Some (Returned w') →
  py_or (Cli.package args) "A" = "A" ∧
  Cli.load_order args = false ∧
  load_order (self w') = [] ∧
  ∃ files',
    same_analysis
      (build_dependency_graph_bfs registry (read_json files') (core_args args)
         "E" 0 [] init)
      (self w') ∧
    (Cli.graphviz args && truthy (Cli.output args) = false →
     files' = files ∧ disk w' = files).
Proof.
  intros Hrepo Hrun. unfold run in Hrun.
  destruct (run_body _ _ _ _ _ _ _ _ _ _) as [[w| |]|] eqn:Hbody;
    try done. injection Hrun as ->.
  unfold run_body in Hbody. cbn [disk self update] in Hbody.
  pose proof (validate_arguments_one_source (path_exists files) args) as Hone.
  destruct (validate_arguments (path_exists files) args) as [errors printed].
  destruct errors as [|error errors]; [|done].
  specialize (Hone eq_refl). rewrite Hrepo in Hone.
  assert (Hpkg : truthy (Cli.package args) = false)
    by (by destruct (truthy (Cli.package args))).
  assert (Hstart : py_or (Cli.package args) "A" = "A").
  { destruct (Cli.package args) as [[|c s]|]; done. }
  split; [done|]. rewrite Hstart, Hrepo, Hpkg in Hbody. cbn [negb andb] in Hbody.
  apply and_then_Returned in Hbody as (w1 & Hlo & Hbody).
  destruct (Cli.load_order args); [done|]. split; [done|].
  injection Hlo as <-. cbn [update self disk] in Hbody.
  apply and_then_Returned in Hbody as (w2 & Htree & Hbody).
  apply and_then_Returned in Hbody as (w3 & Hdot & Hbody).
  apply and_then_Returned in Hbody as (w4 & [= <-] & Hbody).
  apply and_then_Returned in Hbody as (w5 & Hdemo & [= <-]).
  apply demonstrate_visualization_cases_analysis in Hdemo
    as (files' & Hsame & Hdisk).
  assert (Hsame' : same_analysis
            (build_dependency_graph_bfs registry (read_json files')
               (core_args args) "E" 0 [] init)
            (self (update (print (nl +:+ "✅ Все этапы выполнены успешно! Инструмент готов.")) w5)))
    by (by destruct Hsame as (? & ? & ? & ?); split_and!).
  split.
  { destruct Hsame' as (_ & _ & <- & _). apply build_keeps_load_order. }
  exists files'. split; [exact Hsame'|].
  intros Hno. destruct (Hdisk Hno) as [-> Hd5]. cbn [update disk].
  assert (Hd2 : disk w2 = files).
  { destruct (Cli.ascii_tree args).
    - unfold show_tree in Htree.
      destruct (print_ascii_tree _ _ _ _ _ _) as [st|]; [|done].
      by injection Htree as <-.
    - by injection Htree as <-. }
  assert (Hd3 : disk w3 = files).
  { destruct (Cli.graphviz args); cbn [andb] in Hno.
    - rewrite Hno in Hdot. cbn [and_then update self disk] in Hdot.
      by injection Hdot as <-.
    - by injection Hdot as <-. }
  by rewrite Hd5, Hd3.
Qed.

Lemma fixture_run_ends_on_demonstration_witness :
  let args :=
    Cli.mk None "https://registry.npmjs.org" (Some "repo.json") true 3 false
      true None in
  let files := λ _ : unit, fixture_files chain_fixture in
  ∃ w',
    run no_registry files (λ _ _, true) (λ _ _ d, (None, d)) elements_order
      (λ _ w, Some (Returned w)) 4 args ()
    = Some (Returned w') ∧
    py_or (Cli.package args) "A" = "A" ∧
    Cli.load_order args = false ∧
    load_order (self w') = [] ∧
    ∃ files',
      same_analysis
        (build_dependency_graph_bfs no_registry (files files') (core_args args)
           "E" 0 [] init)
        (self w') ∧
      (Cli.graphviz args && truthy (Cli.output args) = false →
       files' = () ∧ disk w' = ()).
Proof.
  intros args files.
  destruct (run no_registry files (λ _ _, true) (λ _ _ d, (None, d))
              elements_order (λ _ w, Some (Returned w)) 4 args ())
    as [[w'|msg w'|code w']|] eqn:Hrun.
  - exists w'. split; [done|].
    apply (fixture_run_ends_on_demonstration no_registry files (λ _ _, true)
             (λ _ _ d, (None, d)) elements_order (λ _ w, Some (Returned w))
             4 args () w'); [reflexivity|exact Hrun].
  - vm_compute in Hrun. discriminate Hrun.
  - vm_compute in Hrun. discriminate Hrun.
  - vm_compute in Hrun. discriminate Hrun.
Defined.
